(** * reporting_pool: a shallow embedding of [ReportingPool]

    The development follows [src/reporting_pool/reporting_pool.py]:

    - Python data: status symbols, values, exceptions;
    - the worker wrappers, written as programs over two effects (a write
      to the shared completion list and the call of the user function),
      with a small-step and a big-step reading;
    - the pool: the wrappers of all jobs interleaved by a schedule;
    - [start], the orchestrating method;
    - the two reporter processes, run against an arbitrary sequence of
      views of the shared list and of clock readings.

    Wall-clock times are rationals: rounding of floating point numbers and
    the rendering of numbers as text are outside the model. *)

From Stdlib Require Import ZArith QArith Bool Lia.
From stdpp Require Import base tactics option list strings pretty.

Local Open Scope nat_scope.

(** ** Python data *)

(** The legend of the class docstring: Q queued, R running, S success,
    F failed. *)
Inductive symbol : Type := SymQ | SymR | SymS | SymF.

#[global] Instance symbol_eq_dec : EqDecision symbol.
Proof. solve_decision. Defined.

Definition symbol_str (s : symbol) : string :=
  match s with SymQ => "Q" | SymR => "R" | SymS => "S" | SymF => "F" end.

(** [v in ('S', 'F')] *)
Definition is_terminal (v : symbol) : bool :=
  match v with SymS | SymF => true | _ => false end.

Inductive pyvalue : Type :=
| PyNone
| PyInt (z : Z)
| PyStr (s : string).

Inductive exc_class : Type :=
| ValueError | TypeError | ZeroDivisionError | IndexError | RuntimeError
| KeyboardInterrupt | SystemExit | GeneratorExit.

(** The classes below [Exception]; the other three derive from
    [BaseException] only. *)
Definition derives_Exception (c : exc_class) : bool :=
  match c with
  | KeyboardInterrupt | SystemExit | GeneratorExit => false
  | _ => true
  end.

(** A raised error: its class and [str(e)]. *)
Record exc : Type := mk_exc { exc_cls : exc_class; exc_str : string }.

Definition is_Exception (e : exc) : bool := derives_Exception (exc_cls e).

Inductive outcome (A : Type) : Type :=
| Return (a : A)
| Raise (e : exc).
Arguments Return {A} a.
Arguments Raise {A} e.

(** The user function, called as [func( *args )]. *)
Definition pyfunc : Type := list pyvalue -> outcome pyvalue.

(** [l[i] = s] on a list: an index out of range raises. *)
Definition py_setitem (l : list symbol) (i : nat) (s : symbol)
  : outcome (list symbol) :=
  if decide (i < length l) then Return (<[i:=s]> l)
  else Raise (mk_exc IndexError "list assignment index out of range").

(** ** Worker programs *)

Inductive prog (A : Type) : Type :=
| Ret (a : A)
| Throw (e : exc)
| SetItem (i : nat) (s : symbol) (k : outcome unit -> prog A)
| Call (f : pyfunc) (args : list pyvalue) (k : outcome pyvalue -> prog A).
Arguments Ret {A} a.
Arguments Throw {A} e.
Arguments SetItem {A} i s k.
Arguments Call {A} f args k.

Definition lift {A} (o : outcome A) : prog A :=
  match o with Return a => Ret a | Raise e => Throw e end.

Fixpoint prog_bind {A B} (k : A -> prog B) (p : prog A) : prog B :=
  match p with
  | Ret a => k a
  | Throw e => Throw e
  | SetItem i s c => SetItem i s (fun o => prog_bind k (c o))
  | Call f args c => Call f args (fun o => prog_bind k (c o))
  end.

#[global] Instance prog_mret : MRet prog := @Ret.
#[global] Instance prog_mbind : MBind prog := @prog_bind.

(** [shared_completion_list[i_job] = s] *)
Definition setitem (i : nat) (s : symbol) : prog unit := SetItem i s lift.

(** [func( *args )] *)
Definition call (f : pyfunc) (args : list pyvalue) : prog pyvalue :=
  Call f args lift.

(** [try: body  except Exception as e: handler e] *)
Fixpoint try_except_Exception {A} (body : prog A) (handler : exc -> prog A)
  : prog A :=
  match body with
  | Ret a => Ret a
  | Throw e => if is_Exception e then handler e else Throw e
  | SetItem i s c => SetItem i s (fun o => try_except_Exception (c o) handler)
  | Call f args c => Call f args (fun o => try_except_Exception (c o) handler)
  end.

Definition newline : string := String (Ascii.ascii_of_nat 10) EmptyString.

(** ['Job #{} failed with error:\n{}\n'.format(i_job, str(e))] *)
Definition failure_text (i_job : nat) (e : exc) : string :=
  "Job #" +:+ pretty i_job +:+ " failed with error:" +:+ newline
    +:+ exc_str e +:+ newline.

Definition _function_wrapper (func : pyfunc) (i_job : nat)
    (args : list pyvalue) : prog pyvalue :=
  setitem i_job SymR;;
  res ← call func args;
  setitem i_job SymS;;
  mret res.

Definition _function_wrapper_track_failure (func : pyfunc) (i_job : nat)
    (args : list pyvalue) : prog pyvalue :=
  setitem i_job SymR;;
  res ← try_except_Exception
          (res ← call func args;
           setitem i_job SymS;;
           mret res)
          (fun e =>
             let res := PyNone in
             let s := failure_text i_job e in
             setitem i_job SymF;;
             mret res);
  mret res.

(** What a program does to the world, one effect at a time. *)
Inductive event : Type :=
| EvWrite (i : nat) (s : symbol)
| EvIndexError (i : nat)
| EvCall (args : list pyvalue).

Definition step_prog {A} (scl : list symbol) (p : prog A)
  : option (event * list symbol * prog A) :=
  match p with
  | Ret _ | Throw _ => None
  | SetItem i s k =>
      match py_setitem scl i s with
      | Return scl' => Some (EvWrite i s, scl', k (Return tt))
      | Raise e => Some (EvIndexError i, scl, k (Raise e))
      end
  | Call f args k => Some (EvCall args, scl, k (f args))
  end.

(** The same program run to its end. *)
Fixpoint run {A} (p : prog A) (scl : list symbol)
  : outcome A * list symbol * list event :=
  match p with
  | Ret a => (Return a, scl, [])
  | Throw e => (Raise e, scl, [])
  | SetItem i s k =>
      match py_setitem scl i s with
      | Return scl' =>
          let '(o, scl'', evs) := run (k (Return tt)) scl' in
          (o, scl'', EvWrite i s :: evs)
      | Raise e =>
          let '(o, scl'', evs) := run (k (Raise e)) scl in
          (o, scl'', EvIndexError i :: evs)
      end
  | Call f args k =>
      let '(o, scl', evs) := run (k (f args)) scl in
      (o, scl', EvCall args :: evs)
  end.

Definition run_outcome {A} (p : prog A) (scl : list symbol) : outcome A :=
  (run p scl).1.1.
Definition run_events {A} (p : prog A) (scl : list symbol) : list event :=
  (run p scl).2.

(** The two job functions at the end of the source file (their
    [time.sleep] left out). *)
Definition _reporting_pool_test_func_wof : pyfunc := fun args =>
  match args with
  | [PyInt v] => Return (PyInt (v ^ 2))
  | _ => Raise (mk_exc TypeError "bad arguments")
  end.

Definition _reporting_pool_test_func_wf : pyfunc := fun args =>
  match args with
  | [PyInt v] =>
      if (v mod 6 =? 0)%Z then Raise (mk_exc ValueError "")
      else Return (PyInt (v ^ 2))
  | _ => Raise (mk_exc TypeError "bad arguments")
  end.

(** ** The pool

    [pool.starmap(fwf, expanded_p_args)] runs one wrapper per job in worker
    processes.  A schedule names, effect by effect, the job that moves
    next; [starmap] returns once every job has finished, so after the
    schedule the jobs still unfinished are run to their end.  The pool
    keeps the first error to arrive and hands it to the caller
    ([Raised]; for an error outside [Exception], which ends the worker
    process instead, [Raised] only says that no result list comes back).
    How the pool groups jobs into chunks and what it does with the jobs
    that follow a failing one is the pool's business and not modelled. *)

Record pool_state : Type := mk_pool {
  shared : list symbol;
  threads : list (prog pyvalue);
  log : list (nat * event);
  first_error : option exc
}.

Definition note_error (fe : option exc) (p : prog pyvalue) : option exc :=
  match fe, p with
  | None, Throw e => Some e
  | _, _ => fe
  end.

Definition step_job (j : nat) (st : pool_state) : pool_state :=
  match threads st !! j with
  | None => st
  | Some p =>
      match step_prog (shared st) p with
      | None => st
      | Some (ev, scl', p') =>
          {| shared := scl';
             threads := <[j:=p']> (threads st);
             log := log st ++ [(j, ev)];
             first_error := note_error (first_error st) p' |}
      end
  end.

Definition exec (sched : list nat) (st : pool_state) : pool_state :=
  fold_left (fun st j => step_job j st) sched st.

(** Every job, in turn, as many times as its program has effects. *)
Definition drain (scl : list symbol) (ps : list (prog pyvalue)) : list nat :=
  concat (imap (fun j p => replicate (length (run_events p scl)) j) ps).

Inductive starmap_result : Type :=
| Returned (res : list pyvalue)
| Raised (e : exc).

Definition value_of (p : prog pyvalue) : pyvalue :=
  match p with Ret v => v | _ => PyNone end.

(** One entry of [expanded_p_args]:
    [[self.func, shared_completion_list, i_job] + p_arg]; the shared list
    is the pool state's. *)
Record expanded : Type := mk_expanded {
  x_func : pyfunc;
  x_i_job : nat;
  x_args : list pyvalue
}.

Definition wrapper : Type := pyfunc -> nat -> list pyvalue -> prog pyvalue.

Definition pool_init (fwf : wrapper) (xs : list expanded)
    (scl : list symbol) : pool_state :=
  {| shared := scl;
     threads := map (fun x => fwf (x_func x) (x_i_job x) (x_args x)) xs;
     log := [];
     first_error := None |}.

Definition pool_run (fwf : wrapper) (xs : list expanded)
    (scl : list symbol) (sched : list nat) : pool_state :=
  let st0 := pool_init fwf xs scl in
  exec (sched ++ drain scl (threads st0)) st0.

Definition starmap (fwf : wrapper) (xs : list expanded)
    (scl : list symbol) (sched : list nat)
  : starmap_result * list symbol :=
  let st := pool_run fwf xs scl sched in
  (match first_error st with
   | Some e => Raised e
   | None => Returned (map value_of (threads st))
   end, shared st).

(** ** The orchestrator *)

(** The entries of [p_args] are Python lists, the only entries that
    [[self.func, shared_completion_list, i_job] + p_arg] accepts. *)
Record ReportingPool : Type := mk_ReportingPool {
  func : pyfunc;
  p_args : list (list pyvalue);
  processes : option Z;
  report_rate : Q;
  report_on_change : bool;
  track_failures : bool
}.

(** The constructor; the defaults of the source ([processes=None],
    [report_rate=60], [report_on_change=False], [track_failures=False])
    are written out at each call. *)
Definition __init__ (func : pyfunc) (p_args : list (list pyvalue))
    (processes : option Z) (report_rate : Q)
    (report_on_change track_failures : bool) : ReportingPool :=
  {| processes := processes;
     func := func;
     p_args := p_args;
     report_rate := report_rate;
     report_on_change := report_on_change;
     track_failures := track_failures |}.

(** What [start] does in the calling process, in order; [MPool] is the
    call of the pool's constructor, whether it succeeds or not. *)
Inductive main_event : Type :=
| MAppend (s : symbol)
| MReporterStart (on_change : bool) (rate : Q)
| MPool (processes : option Z)
| MStarmap (track : bool) (njobs : nat)
| MJoin
| MPrint (text : string).

(** ['Job{} {} {} not finished correctly.'] with its three fields. *)
Definition summary_line (failed : list nat) : string :=
  "Job" +:+ (if decide (1 < length failed) then "s" else "") +:+ " "
    +:+ String.concat ", " (map pretty failed) +:+ " "
    +:+ (if decide (1 < length failed) then "were" else "was")
    +:+ " not finished correctly.".

(** What a call of [start] leaves: the returned list or the error handed
    on, [self.failed_i_jobs] (set in isolating mode, after a normal return
    of the pool), the shared list at the end, and the effects of the
    calling process. *)
Record outcome_of_start : Type := mk_outcome_of_start {
  result : starmap_result;
  failed_i_jobs : option (list nat);
  final_list : list symbol;
  main_log : list main_event
}.

(** [multiprocessing.Pool(processes=...)]: the pool refuses a process
    count below one; [None] stands for the number of processors. *)
Definition Pool (processes : option Z) : outcome unit :=
  match processes with
  | Some n =>
      if (n <? 1)%Z
      then Raise (mk_exc ValueError "Number of processes must be at least 1")
      else Return tt
  | None => Return tt
  end.

(** [enumerate(l)] *)
Definition enumerate {A} (l : list A) : list (nat * A) := imap pair l.

(** [start(self)]; [sched] is the order in which the pool moves the jobs
    while [starmap] waits. *)
Definition start (self : ReportingPool) (sched : list nat)
  : outcome_of_start :=
  let i_jobs := seq 0 (length (p_args self)) in
  let '(shared_completion_list, expanded_p_args, ev_alloc) :=
    fold_left
      (fun '(scl, xs, evs) '(i_job, p_arg) =>
         (scl ++ [SymQ],
          xs ++ [mk_expanded (func self) i_job p_arg],
          evs ++ [MAppend SymQ]))
      (enumerate (p_args self)) ([], [], []) in
  let ev_report :=
    [MReporterStart (report_on_change self) (report_rate self)] in
  let fwf : wrapper :=
    if track_failures self then _function_wrapper_track_failure
    else _function_wrapper in
  let ev_pool :=
    [MPool (processes self);
     MStarmap (track_failures self) (length expanded_p_args)] in
  match Pool (processes self) with
  | Raise e =>
      {| result := Raised e;
         failed_i_jobs := None;
         final_list := shared_completion_list;
         main_log := ev_alloc ++ ev_report ++ [MPool (processes self)] |}
  | Return _ =>
      match starmap fwf expanded_p_args shared_completion_list sched with
      | (Raised e, scl) =>
          {| result := Raised e;
             failed_i_jobs := None;
             final_list := scl;
             main_log := ev_alloc ++ ev_report ++ ev_pool |}
      | (Returned res, scl) =>
          if track_failures self then
            let failed :=
              filter (fun i_job => scl !! i_job = Some SymF) i_jobs in
            {| result := Returned res;
               failed_i_jobs := Some failed;
               final_list := scl;
               main_log :=
                 ev_alloc ++ ev_report ++ ev_pool ++ [MJoin]
                   ++ (if decide (0 < length failed)
                       then [MPrint (summary_line failed)] else []) |}
          else
            {| result := Returned res;
               failed_i_jobs := None;
               final_list := scl;
               main_log := ev_alloc ++ ev_report ++ ev_pool ++ [MJoin] |}
      end
  end.

(** ** The reporter

    A reporter runs in a process of its own.  What it sees of the rest of
    the world is given by an environment: at its [t]-th effect, the clock
    reads [clock t] and the shared list reads [view t].  Nothing is
    assumed about the views, so every interleaving with the workers (and
    every torn read) is covered.  The loops take fuel; [Spin] is a
    reporter still looping when the fuel ran out. *)

Inductive eta : Type :=
| NaN
| Seconds (q : Q).

Inductive line : Type :=
| Report (fraction time_passed : Q) (est_time_left : eta) (lst : string)
| Finished (elapsed : Q).

Record renv : Type := mk_renv {
  clock : nat -> Q;
  view : nat -> list symbol
}.

Record rstate : Type := mk_rstate {
  tick : nat;
  slept : list Q;
  out : list line
}.

Inductive rres (A : Type) : Type :=
| Done (a : A) (st : rstate)
| Crash (e : exc) (st : rstate)
| Spin (st : rstate).
Arguments Done {A} a st.
Arguments Crash {A} e st.
Arguments Spin {A} st.

Definition reporter (A : Type) : Type := renv -> rstate -> rres A.

#[global] Instance reporter_mret : MRet reporter :=
  fun A a _ st => Done a st.
#[global] Instance reporter_mbind : MBind reporter :=
  fun A B k m env st =>
    match m env st with
    | Done a st' => k a env st'
    | Crash e st' => Crash e st'
    | Spin st' => Spin st'
    end.

Definition rraise {A} (e : exc) : reporter A := fun _ st => Crash e st.
Definition spin {A} : reporter A := fun _ st => Spin st.

Definition advance (st : rstate) : rstate :=
  {| tick := S (tick st); slept := slept st; out := out st |}.

(** [time.time()] *)
Definition time_time : reporter Q :=
  fun env st => Done (clock env (tick st)) (advance st).

(** One pass over [shared_completion_list]. *)
Definition read_shared : reporter (list symbol) :=
  fun env st => Done (view env (tick st)) (advance st).

(** [len(shared_completion_list)] *)
Definition len_shared : reporter nat :=
  fun env st => Done (length (view env (tick st))) (advance st).

(** [time.sleep(d)]; a negative length is refused. *)
Definition time_sleep (d : Q) : reporter unit :=
  fun _ st =>
    if Qle_bool 0 d then
      Done tt {| tick := S (tick st); slept := slept st ++ [d];
                 out := out st |}
    else Crash (mk_exc ValueError "sleep length must be non-negative") st.

Definition print (l : line) : reporter unit :=
  fun _ st =>
    Done tt {| tick := tick st; slept := slept st; out := out st ++ [l] |}.

(** [x / y] on numbers. *)
Definition py_truediv (x y : Q) : reporter Q :=
  if Qeq_bool y 0 then rraise (mk_exc ZeroDivisionError "division by zero")
  else mret (x / y)%Q.

Definition of_nat (n : nat) : Q := inject_Z (Z.of_nat n).

(** [''.join(l)] *)
Definition join (l : list symbol) : string :=
  String.concat "" (map symbol_str l).

(** [all(l)] *)
Definition all (l : list bool) : bool := forallb id l.

(** [_print_report(done_list, shared_completion_list, start_time)]; the
    shared list is the environment's. *)
Definition _print_report (done_list : list bool) (start_time : Q)
  : reporter unit :=
  let scl := map Nat.b2n done_list in
  let n_completed := sum_list scl in
  now ← time_time;
  let time_passed := (now - start_time)%Q in
  est_time_left ←
    (if decide (n_completed = 0) then mret NaN
     else
       q ← py_truediv time_passed (of_nat n_completed);
       mret (Seconds
               (q * inject_Z (Z.of_nat (length scl) - Z.of_nat n_completed))));
  fraction ← py_truediv (of_nat n_completed) (of_nat (length scl));
  lst ← read_shared;
  print (Report fraction time_passed est_time_left (join lst)).

Fixpoint periodic_loop (fuel : nat) (sleep_period start_time : Q)
    (done_list : list bool) : reporter unit :=
  if all done_list then mret tt
  else
    match fuel with
    | 0 => spin
    | S fuel =>
        _print_report done_list start_time;;
        time_sleep sleep_period;;
        l ← read_shared;
        periodic_loop fuel sleep_period start_time (map is_terminal l)
    end.

Definition _periodic_reporting_process (fuel : nat) (report_rate : Q)
  : reporter unit :=
  sleep_period ← py_truediv 1 report_rate;
  n ← len_shared;
  let done_list := replicate n false in
  start_time ← time_time;
  periodic_loop fuel sleep_period start_time done_list;;
  t ← time_time;
  print (Finished (t - start_time)).

(** [not all(v == vprev for v, vprev in zip(done_list, done_list_prev))] *)
Definition changed (done_list done_list_prev : list bool) : bool :=
  negb (all (map (fun '(v, vprev) => Bool.eqb v vprev)
               (zip done_list done_list_prev))).

Fixpoint on_change_loop (fuel : nat) (sleep_period start_time : Q)
    (done_list done_list_prev : list bool) : reporter unit :=
  if all done_list then mret tt
  else
    match fuel with
    | 0 => spin
    | S fuel =>
        done_list_prev ←
          (if changed done_list done_list_prev then
             _print_report done_list start_time;;
             mret done_list
           else mret done_list_prev);
        time_sleep sleep_period;;
        l ← read_shared;
        on_change_loop fuel sleep_period start_time (map is_terminal l)
          done_list_prev
    end.

Definition _on_change_reporting_process (fuel : nat) (report_rate : Q)
  : reporter unit :=
  sleep_period ← py_truediv 1 report_rate;
  n ← len_shared;
  let done_list := replicate n false in
  n' ← len_shared;
  let done_list_prev := replicate n' false in
  start_time ← time_time;
  _print_report done_list start_time;;
  on_change_loop fuel sleep_period start_time done_list done_list_prev;;
  t ← time_time;
  print (Finished (t - start_time)).

Definition rstate0 : rstate := {| tick := 0; slept := []; out := [] |}.

(** A progress line whose completed fraction is below one. *)
Definition below_100 (l : line) : Prop :=
  match l with
  | Report fraction _ _ _ => (fraction < 1)%Q
  | Finished _ => True
  end.

Definition is_report (l : line) : bool :=
  match l with Report _ _ _ _ => true | Finished _ => false end.

(** ** Vocabulary of the statements *)

Definition fwf_of (track : bool) : wrapper :=
  if track then _function_wrapper_track_failure else _function_wrapper.

(** Does the wrapper of a mode contain the error? *)
Definition contained (track : bool) (e : exc) : bool :=
  track && is_Exception e.

(** What a wrapper hands back for a job. *)
Definition job_fate (track : bool) (f : pyfunc) (args : list pyvalue)
  : outcome pyvalue :=
  match f args with
  | Return v => Return v
  | Raise e => if contained track e then Return PyNone else Raise e
  end.

(** The symbol a wrapper leaves in its slot. *)
Definition job_final (track : bool) (f : pyfunc) (args : list pyvalue)
  : symbol :=
  match f args with
  | Return _ => SymS
  | Raise e => if contained track e then SymF else SymR
  end.

(** The effects of a wrapper, in order. *)
Definition job_script (track : bool) (f : pyfunc) (i : nat)
    (args : list pyvalue) : list event :=
  [EvWrite i SymR; EvCall args]
    ++ (if is_terminal (job_final track f args)
        then [EvWrite i (job_final track f args)] else []).

(** The effects of job [j] in a pool log. *)
Definition job_events (j : nat) (l : list (nat * event)) : list event :=
  (filter (fun x => x.1 = j) l).*2.

(** The symbols written by a list of effects. *)
Definition ev_writes (evs : list event) : list symbol :=
  omap (fun ev => match ev with EvWrite _ s => Some s | _ => None end) evs.

(** The symbols written to slot [i], by any job, in order. *)
Definition writes_to (i : nat) (l : list (nat * event)) : list symbol :=
  omap (fun x =>
          match x.2 with
          | EvWrite i' s => if decide (i' = i) then Some s else None
          | _ => None
          end) l.

Definition apply_event (scl : list symbol) (x : nat * event) : list symbol :=
  match x.2 with
  | EvWrite i s => <[i:=s]> scl
  | _ => scl
  end.

(** The shared list after the effects of a log. *)
Definition replay (l : list (nat * event)) (scl : list symbol)
  : list symbol :=
  fold_left apply_event l scl.

(** A write made by the job that owns the slot. *)
Definition owned (x : nat * event) : Prop :=
  match x.2 with
  | EvWrite i _ => i = x.1
  | _ => True
  end.

(** The legal moves of a slot. *)
Inductive legal : symbol -> symbol -> Prop :=
| legal_QR : legal SymQ SymR
| legal_RS : legal SymR SymS
| legal_RF : legal SymR SymF.

(** A sequence of symbols in which each follows legally from the one
    before. *)
Fixpoint chain (cur : symbol) (l : list symbol) : Prop :=
  match l with
  | [] => True
  | s :: l' => legal cur s /\ chain s l'
  end.

Definition finished {A} (p : prog A) : bool :=
  match p with Ret _ | Throw _ => true | _ => false end.

(** The for loop at the head of [start]. *)
Definition allocated (self : ReportingPool)
  : list symbol * list expanded * list main_event :=
  fold_left
    (fun '(scl, xs, evs) '(i_job, p_arg) =>
       (scl ++ [SymQ],
        xs ++ [mk_expanded (func self) i_job p_arg],
        evs ++ [MAppend SymQ]))
    (enumerate (p_args self)) ([], [], []).

(** The pool of a run of [start], before any job has moved. *)
Definition start_pool (self : ReportingPool) : pool_state :=
  pool_init (fwf_of (track_failures self)) (allocated self).1.2
    (allocated self).1.1.

(** The value of a job that ran in isolating mode or did not fail. *)
Definition job_value (f : pyfunc) (args : list pyvalue) : pyvalue :=
  match f args with Return v => v | Raise _ => PyNone end.

(** The pool when [starmap] returns. *)
Definition end_pool (self : ReportingPool) (sched : list nat) : pool_state :=
  exec (sched ++ drain (replicate (length (p_args self)) SymQ)
                   (imap (fwf_of (track_failures self) (func self))
                      (p_args self)))
    (start_pool self).

(** What holds of the pool in every state reachable from the programs
  [ps0] and the shared list [scl0]. *)
Record pool_inv (ps0 : list (prog pyvalue)) (scl0 : list symbol)
  (st : pool_state) : Prop := mk_pool_inv {
  inv_shared : shared st = replay (log st) scl0;
  inv_length : length (shared st) = length scl0;
  inv_threads : length (threads st) = length ps0;
  inv_job : forall j p0, ps0 !! j = Some p0 ->
    exists p, threads st !! j = Some p
      /\ job_events j (log st) ++ run_events p (shared st)
         = run_events p0 scl0
      /\ run_outcome p (shared st) = run_outcome p0 scl0;
  inv_log : forall x, x ∈ log st -> x.1 < length ps0;
  inv_error : first_error st = None ->
    forall j e, threads st !! j = Some (Throw e) ->
                ps0 !! j = Some (Throw e);
  inv_raised : forall e, first_error st = Some e ->
    exists j, threads st !! j = Some (Throw e)
}.

(** The estimate of the time left in a report. *)
Definition eta_of (time_passed : Q) (n len : nat) : eta :=
  if decide (n = 0) then NaN
  else Seconds (time_passed / of_nat n
                * inject_Z (Z.of_nat len - Z.of_nat n))%Q.

(** A progress line printed inside a loop. *)
Definition report_ok (l : line) : Prop := is_report l = true /\ below_100 l.

(** ** Inputs for the examples *)

(** [[[v] for v in range(12)]] *)
Definition twelve_jobs : list (list pyvalue) :=
  map (fun v => [PyInt (Z.of_nat v)]) (seq 0 12).

(** Two jobs seen by a reporter: queued and running, then one done, then
    both; the clock reads the number of the effect. *)
Definition two_jobs_env : renv :=
  mk_renv of_nat
    (fun t => if decide (t < 6) then [SymQ; SymR]
              else if decide (t < 10) then [SymR; SymS]
              else [SymS; SymF]).

(** No job at all. *)
Definition no_job_env : renv := mk_renv of_nat (fun _ => []).

(** [[[v] for v in range(n)]], the argument list of the two examples at
    the end of the source file (there with [n = 40]). *)
Definition range_args (n : nat) : list (list pyvalue) :=
  map (fun v => [PyInt (Z.of_nat v)]) (seq 0 n).

(** The symbol of a job that handed back a value. *)
Definition terminal_of (f : pyfunc) (args : list pyvalue) : symbol :=
  match f args with Return _ => SymS | Raise _ => SymF end.

(** The head of the effects of [start] in the calling process, up to the
    call of [starmap]. *)
Definition start_head (self : ReportingPool) : list main_event :=
  replicate (length (p_args self)) (MAppend SymQ)
    ++ [MReporterStart (report_on_change self) (report_rate self);
        MPool (processes self);
        MStarmap (track_failures self) (length (p_args self))].

(** One job left running for ever beside one that is done. *)
Definition stuck_env : renv := mk_renv of_nat (fun _ => [SymR; SymS]).

(** Two jobs that move between queued and running and never end. *)
Definition running_env : renv :=
  mk_renv of_nat
    (fun t => if Nat.even t then [SymQ; SymQ] else [SymR; SymQ]).

(** * Properties *)

(** ** Programs *)

Lemma run_step {A} (p p' : prog A) scl scl' ev :
  step_prog scl p = Some (ev, scl', p') ->
  run p scl = ((run p' scl').1, ev :: (run p' scl').2).
Proof.
  destruct p as [a|e|i s k|f args k]; simpl; try discriminate.
  - destruct (py_setitem scl i s) as [l|e]; intros [= <- <- <-];
      destruct (run _ _) as [[o l'] evs]; reflexivity.
  - intros [= <- <- <-]. destruct (run _ _) as [[o l'] evs]. reflexivity.
Qed.

Lemma step_prog_length {A} (p p' : prog A) scl scl' ev :
  step_prog scl p = Some (ev, scl', p') -> length scl' = length scl.
Proof.
  destruct p as [a|e|i s k|f args k]; simpl; try discriminate.
  - unfold py_setitem. case_decide; intros [= <- <- <-];
      [apply length_insert | reflexivity].
  - intros [= <- <- <-]. reflexivity.
Qed.

Lemma step_prog_None {A} (p : prog A) scl :
  step_prog scl p = None <-> finished p = true.
Proof.
  destruct p as [a|e|i s k|f args k]; simpl; try tauto.
  - destruct (py_setitem scl i s); split; discriminate.
  - split; discriminate.
Qed.

Lemma run_finished {A} (p : prog A) scl :
  finished p = true -> run_events p scl = [] /\ lift (run_outcome p scl) = p.
Proof. destruct p; simpl; try discriminate; auto. Qed.

(** The outcome and the effects of a program depend on the shared list
    through its length only. *)
Lemma run_frame {A} (p : prog A) scl1 scl2 :
  length scl1 = length scl2 ->
  run_outcome p scl1 = run_outcome p scl2
  /\ run_events p scl1 = run_events p scl2.
Proof.
  unfold run_outcome, run_events. revert scl1 scl2.
  induction p as [a|e|i s k IH|f args k IH]; intros scl1 scl2 Hlen; simpl;
    [tauto | tauto | |].
  - unfold py_setitem. rewrite Hlen. case_decide.
    + specialize (IH (Return tt) (<[i:=s]> scl1) (<[i:=s]> scl2)).
      rewrite !length_insert in IH. specialize (IH Hlen).
      do 2 destruct (run _ _) as [[? ?] ?]. simpl in *.
      destruct IH as [-> ->]. tauto.
    + specialize (IH (Raise (mk_exc IndexError
                        "list assignment index out of range")) _ _ Hlen).
      do 2 destruct (run _ _) as [[? ?] ?]. simpl in *.
      destruct IH as [-> ->]. tauto.
  - specialize (IH (f args) _ _ Hlen).
    do 2 destruct (run _ _) as [[? ?] ?]. simpl in *.
    destruct IH as [-> ->]. tauto.
Qed.

(** ** The wrappers, run alone *)

Lemma run_function_wrapper f i args scl :
  i < length scl ->
  run (_function_wrapper f i args) scl
  = (job_fate false f args, <[i:=job_final false f args]> scl,
     job_script false f i args).
Proof.
  intros Hi. unfold job_script, job_fate, job_final. simpl.
  unfold py_setitem. rewrite decide_True by done. simpl.
  destruct (f args) as [v|e]; simpl.
  - unfold py_setitem. rewrite decide_True by (by rewrite length_insert).
    by rewrite list_insert_insert_eq.
  - reflexivity.
Qed.

Lemma run_function_wrapper_track_failure f i args scl :
  i < length scl ->
  run (_function_wrapper_track_failure f i args) scl
  = (job_fate true f args, <[i:=job_final true f args]> scl,
     job_script true f i args).
Proof.
  intros Hi. unfold job_script, job_fate, job_final. simpl.
  unfold py_setitem. rewrite decide_True by done. simpl.
  destruct (f args) as [v|e]; simpl.
  - unfold py_setitem. rewrite decide_True by (by rewrite length_insert).
    by rewrite list_insert_insert_eq.
  - destruct (is_Exception e); simpl; [|reflexivity].
    unfold py_setitem. rewrite decide_True by (by rewrite length_insert).
    by rewrite list_insert_insert_eq.
Qed.

Lemma run_fwf track f i args scl :
  i < length scl ->
  run (fwf_of track f i args) scl
  = (job_fate track f args, <[i:=job_final track f args]> scl,
     job_script track f i args).
Proof.
  destruct track; [apply run_function_wrapper_track_failure
                  | apply run_function_wrapper].
Qed.

(** ** The pool, for any programs *)

Lemma job_events_snoc j k ev l :
  job_events j (l ++ [(k, ev)])
  = job_events j l ++ (if decide (k = j) then [ev] else []).
Proof.
  unfold job_events. rewrite filter_app, fmap_app. f_equal.
  rewrite filter_cons, filter_nil. simpl. by case_decide.
Qed.

Lemma replay_snoc l x scl :
  replay (l ++ [x]) scl = apply_event (replay l scl) x.
Proof. unfold replay. by rewrite fold_left_app. Qed.

Lemma step_prog_apply {A} (p p' : prog A) scl scl' ev j :
  step_prog scl p = Some (ev, scl', p') -> scl' = apply_event scl (j, ev).
Proof.
  destruct p as [a|e|i s k|f args k]; simpl; try discriminate.
  - unfold py_setitem. case_decide; by intros [= <- <- <-].
  - by intros [= <- <- <-].
Qed.

Lemma exec_app s1 s2 st : exec (s1 ++ s2) st = exec s2 (exec s1 st).
Proof. unfold exec. by rewrite fold_left_app. Qed.

Lemma run_events_nil {A} (p : prog A) scl :
  run_events p scl = [] -> finished p = true.
Proof.
  unfold run_events. destruct p as [a|e|i s k|f args k]; simpl; auto.
  - destruct (py_setitem scl i s); destruct (run _ _) as [[? ?] ?];
      discriminate.
  - destruct (run _ _) as [[? ?] ?]; discriminate.
Qed.

(** A job that has finished is not moved by anything. *)
Lemma step_job_finished j k st p :
  threads st !! j = Some p -> finished p = true ->
  threads (step_job k st) !! j = Some p.
Proof.
  intros Hj Hp. unfold step_job.
  destruct (threads st !! k) as [q|] eqn:Hk; [|done].
  destruct (step_prog (shared st) q) as [[[ev scl'] q']|] eqn:Hq; [|done].
  simpl. destruct (decide (k = j)) as [->|Hne].
  - rewrite Hj in Hk. injection Hk as <-.
    apply (step_prog_None p (shared st)) in Hp. congruence.
  - by rewrite list_lookup_insert_ne.
Qed.

Lemma exec_finished sched j st p :
  threads st !! j = Some p -> finished p = true ->
  threads (exec sched st) !! j = Some p.
Proof.
  revert st. induction sched as [|k sched IH]; intros st Hj Hp; [done|].
  change (exec (k :: sched) st) with (exec sched (step_job k st)).
  apply IH; [|done]. by apply step_job_finished.
Qed.

(** Moving a job as many times as it has effects left finishes it. *)
Lemma exec_replicate_finishes m j st p :
  threads st !! j = Some p ->
  length (run_events p (shared st)) <= m ->
  exists p', threads (exec (replicate m j) st) !! j = Some p'
             /\ finished p' = true.
Proof.
  revert st p. induction m as [|m IH]; intros st p Hj Hlen.
  - exists p. split; [done|]. apply (run_events_nil p (shared st)).
    destruct (run_events p (shared st)); [done | simpl in Hlen; lia].
  - change (exec (replicate (S m) j) st)
      with (exec (replicate m j) (step_job j st)).
    unfold step_job. rewrite Hj.
    destruct (step_prog (shared st) p) as [[[ev scl'] p']|] eqn:Hp.
    + apply (IH _ p'); simpl.
      * apply list_lookup_insert_eq. by eapply lookup_lt_Some.
      * unfold run_events in *. rewrite (run_step _ _ _ _ _ Hp) in Hlen.
        simpl in Hlen. lia.
    + exists p. split.
      * apply exec_finished; [done|]. by apply (step_prog_None p (shared st)).
      * by apply (step_prog_None p (shared st)).
Qed.

Section pool_invariant.
Context (ps0 : list (prog pyvalue)) (scl0 : list symbol).

Lemma pool_inv_init : pool_inv ps0 scl0 (mk_pool scl0 ps0 [] None).
Proof.
  split; simpl; try done.
  - intros j p0 Hj. exists p0. by rewrite Hj.
  - intros x Hx. by apply elem_of_nil in Hx.
Qed.

Lemma pool_inv_step j st :
  pool_inv ps0 scl0 st -> pool_inv ps0 scl0 (step_job j st).
Proof.
  intros [Hsh Hlen Hth Hjob Hlog Herr Hrai]. unfold step_job.
  destruct (threads st !! j) as [p|] eqn:Hj; [|by split].
  destruct (step_prog (shared st) p) as [[[ev scl'] p']|] eqn:Hp;
    [|by split].
  assert (Hj' : j < length (threads st)) by (by eapply lookup_lt_Some).
  split; simpl.
  - rewrite replay_snoc, <- Hsh. by eapply step_prog_apply.
  - rewrite <- Hlen. by eapply step_prog_length.
  - by rewrite length_insert.
  - intros k p0 Hk. destruct (Hjob k p0 Hk) as (q & Hq & Hev & Hout).
    rewrite job_events_snoc. destruct (decide (j = k)) as [->|Hne].
    + exists p'. rewrite list_lookup_insert_eq by done.
      rewrite Hj in Hq. injection Hq as <-.
      unfold run_events, run_outcome in *.
      rewrite (run_step _ _ _ _ _ Hp) in Hev, Hout. simpl in *.
      by rewrite <- app_assoc.
    + exists q. rewrite list_lookup_insert_ne by done.
      destruct (run_frame q scl' (shared st)) as [-> ->];
        [by eapply step_prog_length|].
      by rewrite app_nil_r.
  - intros x [Hx|Hx]%elem_of_app; [by apply Hlog|].
    apply list_elem_of_singleton in Hx as ->. simpl. lia.
  - intros Hnone k e Hk.
    destruct (first_error st) as [e0|] eqn:Hfe; [done|].
    destruct (decide (j = k)) as [->|Hne].
    + rewrite list_lookup_insert_eq in Hk by done.
      injection Hk as ->. discriminate.
    + rewrite list_lookup_insert_ne in Hk by done. by eapply Herr.
  - intros e He. destruct (first_error st) as [e0|] eqn:Hfe.
    + simpl in He. injection He as ->.
      destruct (Hrai e eq_refl) as (k & Hk). exists k.
      destruct (decide (j = k)) as [->|Hne].
      * rewrite Hj in Hk. injection Hk as ->. discriminate.
      * by rewrite list_lookup_insert_ne.
    + exists j. rewrite list_lookup_insert_eq by done.
      destruct p'; simpl in He; try discriminate. by injection He as ->.
Qed.

Lemma pool_inv_exec sched st :
  pool_inv ps0 scl0 st -> pool_inv ps0 scl0 (exec sched st).
Proof.
  revert st. induction sched as [|j sched IH]; intros st Hst; [done|].
  change (exec (j :: sched) st) with (exec sched (step_job j st)).
  by apply IH, pool_inv_step.
Qed.

(** What is left of a job never exceeds its whole script. *)
Lemma pool_inv_remaining st j p0 p :
  pool_inv ps0 scl0 st -> ps0 !! j = Some p0 -> threads st !! j = Some p ->
  length (run_events p (shared st)) <= length (run_events p0 scl0).
Proof.
  intros Hst Hj Hp. destruct (inv_job _ _ _ Hst j p0 Hj) as (q & Hq & Hev & _).
  rewrite Hp in Hq. injection Hq as <-.
  rewrite <- Hev, length_app. lia.
Qed.

Lemma drain_finishes_from (pre : list (prog pyvalue)) l st j p0 :
  pool_inv ps0 scl0 st -> ps0 = pre ++ l -> ps0 !! j = Some p0 ->
  length pre <= j ->
  exists p,
    threads (exec (concat (imap (fun k q =>
               replicate (length (run_events q scl0)) (length pre + k)) l))
               st) !! j = Some p
    /\ finished p = true.
Proof.
  revert pre st. induction l as [|q l IH]; intros pre st Hst Hps Hj Hpre.
  - rewrite app_nil_r in Hps. subst pre.
    apply lookup_lt_Some in Hj. lia.
  - rewrite imap_cons. simpl. rewrite exec_app.
    set (st1 := exec (replicate _ _) st).
    assert (Hst1 : pool_inv ps0 scl0 st1) by (by apply pool_inv_exec).
    destruct (decide (length pre = j)) as [Heq|Hne].
    + assert (q = p0) as ->.
      { rewrite Hps in Hj. rewrite <- Heq in Hj.
        rewrite list_lookup_middle in Hj by done. congruence. }
      destruct (inv_job _ _ _ Hst j p0 Hj) as (p & Hp & _).
      destruct (exec_replicate_finishes
                  (length (run_events p0 scl0)) j st p Hp)
        as (p' & Hp' & Hfin); [by eapply pool_inv_remaining|].
      exists p'. split; [|done]. apply exec_finished; [|done].
      subst st1. rewrite Nat.add_0_r, Heq. done.
    + destruct (IH (pre ++ [q]) st1 Hst1) as (p & Hp & Hfin).
      * by rewrite <- app_assoc.
      * done.
      * rewrite length_app. simpl. lia.
      * exists p. split; [|done]. rewrite <- Hp. do 4 f_equal.
        apply imap_ext. intros k x _. simpl.
        rewrite length_app. simpl. f_equal. lia.
Qed.

(** After the drain every job has run its whole script and holds its
    outcome. *)
Lemma pool_run_job sched j p0 :
  ps0 !! j = Some p0 ->
  let st := exec (sched ++ drain scl0 ps0) (mk_pool scl0 ps0 [] None) in
  threads st !! j = Some (lift (run_outcome p0 scl0))
  /\ job_events j (log st) = run_events p0 scl0.
Proof.
  intros Hj st.
  assert (Hst : pool_inv ps0 scl0 st) by apply pool_inv_exec, pool_inv_init.
  destruct (drain_finishes_from [] ps0
              (exec sched (mk_pool scl0 ps0 [] None)) j p0)
    as (p & Hp & Hfin);
    [apply pool_inv_exec, pool_inv_init | done | done | simpl; lia |].
  simpl in Hp. fold (drain scl0 ps0) in Hp. rewrite <- exec_app in Hp.
  fold st in Hp.
  destruct (inv_job _ _ _ Hst j p0 Hj) as (q & Hq & Hev & Hout).
  rewrite Hp in Hq. injection Hq as <-.
  destruct (run_finished p (shared st) Hfin) as [Hnil Hlift].
  rewrite Hnil, app_nil_r in Hev. rewrite Hout in Hlift. by subst p.
Qed.
End pool_invariant.

(** ** The pool of [start] *)

Lemma allocated_eq self :
  allocated self
  = (replicate (length (p_args self)) SymQ,
     imap (mk_expanded (func self)) (p_args self),
     replicate (length (p_args self)) (MAppend SymQ)).
Proof.
  unfold allocated, enumerate.
  induction (p_args self) as [|x l IH] using rev_ind; [done|].
  rewrite imap_app, fold_left_app, IH. simpl.
  rewrite length_app, Nat.add_0_r, imap_app. simpl.
  rewrite Nat.add_1_r, !replicate_S_end, Nat.add_0_r. done.
Qed.

Lemma start_pool_eq self :
  start_pool self
  = mk_pool (replicate (length (p_args self)) SymQ)
      (imap (fwf_of (track_failures self) (func self)) (p_args self))
      [] None.
Proof.
  unfold start_pool, pool_init. rewrite allocated_eq. simpl. f_equal.
  apply list_eq. intros i.
  change (map ?g ?l) with (g <$> l).
  rewrite list_lookup_fmap, !list_lookup_imap.
  by destruct (p_args self !! i).
Qed.

Section start_run.
Context (self : ReportingPool).

Local Abbreviation track := (track_failures self).
Local Abbreviation f := (func self).
Local Abbreviation l := (p_args self).
Local Abbreviation scl0 := (replicate (length (p_args self)) SymQ).
Local Abbreviation ps0 :=
  (imap (fwf_of (track_failures self) (func self)) (p_args self)).

Lemma start_job j args :
  l !! j = Some args ->
  ps0 !! j = Some (fwf_of track f j args)
  /\ run (fwf_of track f j args) scl0
     = (job_fate track f args, <[j:=job_final track f args]> scl0,
        job_script track f j args).
Proof.
  intros Hj. split.
  - by rewrite list_lookup_imap, Hj.
  - apply run_fwf. rewrite length_replicate.
    by eapply lookup_lt_Some.
Qed.

Lemma start_pool_inv sched :
  pool_inv ps0 scl0 (exec sched (start_pool self)).
Proof. rewrite start_pool_eq. apply pool_inv_exec, pool_inv_init. Qed.

Lemma start_job_prefix sched j args :
  l !! j = Some args ->
  job_events j (log (exec sched (start_pool self)))
    `prefix_of` job_script track f j args.
Proof.
  intros Hj. destruct (start_job j args Hj) as [Hps Hrun].
  destruct (inv_job _ _ _ (start_pool_inv sched) j _ Hps)
    as (p & _ & Hev & _).
  unfold run_events in Hev at 2. rewrite Hrun in Hev. simpl in Hev.
  rewrite <- Hev. by apply prefix_app_r.
Qed.

Lemma start_log_owned sched x :
  x ∈ log (exec sched (start_pool self)) ->
  x.1 < length l /\ owned x.
Proof.
  intros Hx.
  pose proof (inv_log _ _ _ (start_pool_inv sched) x Hx) as Hlt.
  rewrite length_imap in Hlt. split; [done|].
  destruct (lookup_lt_is_Some_2 l x.1 Hlt) as [args Hargs].
  destruct (start_job_prefix sched x.1 args Hargs) as [rest Hrest].
  assert (Hin : x.2 ∈ job_script track f x.1 args).
  { rewrite Hrest. apply elem_of_app. left. unfold job_events.
    apply list_elem_of_fmap. exists x. split; [done|].
    by apply list_elem_of_filter. }
  unfold job_script in Hin. unfold owned.
  apply elem_of_app in Hin as [Hin|Hin].
  - apply elem_of_cons in Hin as [Hin|Hin];
      [|apply list_elem_of_singleton in Hin]; by rewrite Hin.
  - destruct (is_terminal _);
      [apply list_elem_of_singleton in Hin; by rewrite Hin
      |by apply elem_of_nil in Hin].
Qed.
End start_run.

(** ** Slot histories *)

Lemma replay_length l scl : length (replay l scl) = length scl.
Proof.
  induction l as [|x l IH] using rev_ind; [done|].
  rewrite replay_snoc. unfold apply_event.
  destruct x.2; by rewrite ?length_insert.
Qed.

(** A slot of the shared list shows the last symbol written to it. *)
Lemma replay_lookup l scl i x :
  scl !! i = Some x ->
  replay l scl !! i = Some (default x (last (writes_to i l))).
Proof.
  intros Hi. induction l as [|y l IH] using rev_ind; [done|].
  rewrite replay_snoc. unfold writes_to in *. rewrite omap_app. simpl.
  unfold apply_event. destruct y.2 as [i' s| |]; simpl;
    rewrite ?app_nil_r; try done.
  case_decide as Hii.
  - subst i'. rewrite last_snoc. simpl. apply list_lookup_insert_eq.
    rewrite replay_length. by eapply lookup_lt_Some.
  - rewrite app_nil_r. by rewrite list_lookup_insert_ne.
Qed.

(** When every write is made by the owner of the slot, the history of a
    slot is the history of its job. *)
Lemma writes_to_owned l i :
  (forall x, x ∈ l -> owned x) ->
  writes_to i l = ev_writes (job_events i l).
Proof.
  unfold writes_to, ev_writes, job_events.
  induction l as [|[j ev] l IH]; intros Hown; [done|].
  assert (Hx : owned (j, ev)) by (apply Hown; left).
  change ((j, ev) :: l) with ([(j, ev)] ++ l).
  rewrite filter_app, fmap_app, !omap_app.
  rewrite IH by (intros x Hx'; apply Hown; by right).
  f_equal. rewrite filter_cons, filter_nil.
  unfold owned in Hx. simpl in Hx.
  destruct ev as [i' s| |]; simpl; repeat case_decide; simpl; try done;
    congruence.
Qed.

Lemma chain_cases l :
  chain SymQ l <->
  l = [] \/ l = [SymR] \/ l = [SymR; SymS] \/ l = [SymR; SymF].
Proof.
  split.
  - destruct l as [|a [|b [|c l]]]; simpl; auto.
    + intros [H _]. inversion H. auto.
    + intros (H1 & H2 & _). inversion H1; subst. inversion H2; auto.
    + intros (H1 & H2 & H3 & _). inversion H1; subst.
      inversion H2; subst; inversion H3.
  - intros [-> | [-> | [-> | ->]]]; simpl; repeat split; constructor.
Qed.

Lemma job_final_cases track f args :
  job_final track f args = SymR
  \/ job_final track f args = SymS
  \/ job_final track f args = SymF.
Proof.
  unfold job_final. destruct (f args); [|destruct (contained _ _)]; auto.
Qed.

(** The prefixes of a job script, spelled out. *)
Lemma job_script_prefix track f i args evs :
  evs `prefix_of` job_script track f i args ->
  evs = [] \/ evs = [EvWrite i SymR]
  \/ evs = [EvWrite i SymR; EvCall args]
  \/ (evs = [EvWrite i SymR; EvCall args;
             EvWrite i (job_final track f args)]
      /\ is_terminal (job_final track f args) = true).
Proof.
  intros [rest Hrest]. unfold job_script in Hrest.
  destruct (is_terminal (job_final track f args)) eqn:Hterm; simpl in Hrest;
    destruct evs as [|e1 [|e2 [|e3 [|e4 evs]]]]; simplify_eq/=; auto.
Qed.

Lemma start_job_events_out self sched i :
  length (p_args self) <= i ->
  job_events i (log (exec sched (start_pool self))) = [].
Proof.
  intros Hi. unfold job_events.
  destruct (filter _ _) as [|x rest] eqn:Hf; [done|].
  assert (Hx : x ∈ filter (fun x : nat * event => x.1 = i)
                 (log (exec sched (start_pool self))))
    by (rewrite Hf; left).
  apply list_elem_of_filter in Hx as [Hx1 Hx2].
  apply start_log_owned in Hx2 as [Hlt _]. lia.
Qed.

(** C1.  In every state a run of [start] can reach (any schedule, any
    point of it), for every slot [i]:
    the symbols written to the slot so far, in order, are nothing, [R],
    [R S] or [R F], so that with the initial [Q] the slot only moves
    Queued, Running, then at most one terminal symbol, and never back;
    the slot shows the last of them;
    and the effects of job [i] are an initial part of: write [R], call
    the user function, write one terminal symbol. *)
Theorem slot_history_monotonic (self : ReportingPool) (sched : list nat)
    (i : nat) :
  let st := exec sched (start_pool self) in
  (writes_to i (log st) = [] \/ writes_to i (log st) = [SymR]
   \/ writes_to i (log st) = [SymR; SymS]
   \/ writes_to i (log st) = [SymR; SymF])
  /\ chain SymQ (writes_to i (log st))
  /\ (i < length (p_args self) ->
      shared st !! i = Some (default SymQ (last (writes_to i (log st)))))
  /\ (forall args, p_args self !! i = Some args ->
      exists s, is_terminal s = true
        /\ job_events i (log st)
             `prefix_of` [EvWrite i SymR; EvCall args; EvWrite i s]).
Proof.
  intros st.
  assert (Hws : writes_to i (log st) = ev_writes (job_events i (log st))).
  { apply writes_to_owned. intros x Hx. by apply (start_log_owned self sched). }
  assert (Hcases : writes_to i (log st) = [] \/ writes_to i (log st) = [SymR]
     \/ writes_to i (log st) = [SymR; SymS]
     \/ writes_to i (log st) = [SymR; SymF]).
  { rewrite Hws. destruct (decide (i < length (p_args self))) as [Hi|Hi].
    - destruct (lookup_lt_is_Some_2 _ _ Hi) as [args Hargs].
      pose proof (start_job_prefix self sched i args Hargs) as Hpre.
      apply job_script_prefix in Hpre. fold st in Hpre.
      destruct Hpre as [-> | [-> | [-> | [-> Hterm]]]]; simpl; auto.
      destruct (job_final_cases (track_failures self) (func self) args)
        as [H|[H|H]]; rewrite H in *; simpl in *; auto; discriminate.
    - subst st. rewrite start_job_events_out by lia. auto. }
  split; [done|]. split; [by apply chain_cases|]. split.
  - intros Hi. pose proof (start_pool_inv self sched) as Hinv.
    unfold st. rewrite (inv_shared _ _ _ Hinv). apply replay_lookup.
    by apply lookup_replicate_2.
  - intros args Hargs.
    pose proof (start_job_prefix self sched i args Hargs) as Hpre.
    fold st in Hpre. unfold job_script in Hpre.
    destruct (is_terminal (job_final _ _ args)) eqn:Hterm.
    + by exists (job_final (track_failures self) (func self) args).
    + exists SymS. split; [done|].
      etrans; [exact Hpre|]. by exists [EvWrite i SymS].
Qed.

(** ** The end of a run of [start] *)


Lemma start_eq self sched :
  Pool (processes self) = Return tt ->
  start self sched
  = let st := end_pool self sched in
    let n := length (p_args self) in
    let head :=
      replicate n (MAppend SymQ)
        ++ [MReporterStart (report_on_change self) (report_rate self)]
        ++ [MPool (processes self); MStarmap (track_failures self) n] in
    match first_error st with
    | Some e => mk_outcome_of_start (Raised e) None (shared st) head
    | None =>
        let res := map value_of (threads st) in
        if track_failures self then
          let failed :=
            filter (fun i_job => shared st !! i_job = Some SymF) (seq 0 n) in
          mk_outcome_of_start (Returned res) (Some failed) (shared st)
            (head ++ [MJoin]
               ++ (if decide (0 < length failed)
                   then [MPrint (summary_line failed)] else []))
        else
          mk_outcome_of_start (Returned res) None (shared st)
            (head ++ [MJoin])
    end.
Proof.
  intros Hpool. unfold end_pool. rewrite (start_pool_eq self).
  unfold start, starmap, pool_run. rewrite Hpool.
  change (fold_left _ (enumerate (p_args self)) _) with (allocated self).
  pose proof (start_pool_eq self) as Hsp. unfold start_pool in Hsp.
  pose proof (allocated_eq self) as Hal.
  destruct (allocated self) as [[scl xs] evs]. injection Hal as -> -> ->.
  simpl in Hsp. unfold fwf_of in *. rewrite length_imap, !Hsp. simpl.
  destruct (first_error _); [done|].
  destruct (track_failures self); by rewrite <- ?app_assoc.
Qed.

(** When the pool refuses the process count, [start] hands the error on
    with the slots appended, the reporter started and nothing else done. *)
Lemma start_refused self sched e :
  Pool (processes self) = Raise e ->
  start self sched
  = {| result := Raised e;
       failed_i_jobs := None;
       final_list := replicate (length (p_args self)) SymQ;
       main_log :=
         replicate (length (p_args self)) (MAppend SymQ)
           ++ [MReporterStart (report_on_change self) (report_rate self);
               MPool (processes self)] |}.
Proof.
  intros Hpool. unfold start. rewrite Hpool.
  change (fold_left _ (enumerate (p_args self)) _) with (allocated self).
  by rewrite allocated_eq.
Qed.

Lemma Pool_cases processes :
  Pool processes = Return tt
  \/ exists z, processes = Some z /\ (z < 1)%Z
       /\ Pool processes
          = Raise (mk_exc ValueError "Number of processes must be at least 1").
Proof.
  destruct processes as [z|]; [|by left]. unfold Pool.
  destruct (Z.ltb_spec z 1); [right; by exists z | by left].
Qed.

(** [start] returns a list only when the pool took the process count. *)
Lemma start_returned_valid self sched res :
  result (start self sched) = Returned res ->
  Pool (processes self) = Return tt.
Proof.
  destruct (Pool_cases (processes self)) as [H|(z & _ & _ & H)]; [done|].
  by rewrite (start_refused self sched _ H).
Qed.

Lemma fwf_not_finished track f i args :
  finished (fwf_of track f i args) = false.
Proof. by destruct track. Qed.

Lemma end_pool_inv self sched :
  pool_inv (imap (fwf_of (track_failures self) (func self)) (p_args self))
    (replicate (length (p_args self)) SymQ) (end_pool self sched).
Proof. apply start_pool_inv. Qed.

Lemma end_pool_owned self sched x :
  x ∈ log (end_pool self sched) -> owned x.
Proof. intros Hx. by apply start_log_owned in Hx as [_ Hx]. Qed.

Section start_end.
Context (self : ReportingPool) (sched : list nat).

Local Abbreviation track := (track_failures self).
Local Abbreviation f := (func self).
Local Abbreviation l := (p_args self).
Local Abbreviation stf := (end_pool self sched).

Lemma end_pool_job j args :
  l !! j = Some args ->
  threads stf !! j = Some (lift (job_fate track f args))
  /\ job_events j (log stf) = job_script track f j args.
Proof.
  intros Hj. destruct (start_job self j args Hj) as [Hps Hrun].
  unfold end_pool. rewrite start_pool_eq.
  destruct (pool_run_job _ (replicate (length l) SymQ) sched j _ Hps)
    as [Hth Hev].
  unfold run_outcome in Hth. unfold run_events in Hev.
  rewrite Hrun in Hth, Hev. done.
Qed.

Lemma end_pool_threads :
  threads stf = (fun args => lift (job_fate track f args)) <$> l.
Proof.
  apply list_eq. intros j. rewrite list_lookup_fmap.
  destruct (l !! j) as [args|] eqn:Hj; simpl.
  - by apply end_pool_job.
  - apply lookup_ge_None_2.
    rewrite (inv_threads _ _ _ (end_pool_inv self sched)), length_imap.
    by apply lookup_ge_None_1.
Qed.

Lemma end_pool_slot j args :
  l !! j = Some args ->
  shared stf !! j = Some (job_final track f args).
Proof.
  intros Hj. destruct (end_pool_job j args Hj) as [_ Hev].
  rewrite (inv_shared _ _ _ (end_pool_inv self sched)).
  rewrite (replay_lookup _ _ j SymQ)
    by (apply lookup_replicate_2; by eapply lookup_lt_Some).
  rewrite writes_to_owned by apply end_pool_owned.
  rewrite Hev. unfold job_script.
  destruct (job_final_cases track f args) as [H|[H|H]]; by rewrite H.
Qed.

(** No error reaches the pool unless a job hands one back. *)
Lemma end_pool_no_error :
  (forall args, args ∈ l -> exists v, job_fate track f args = Return v) ->
  first_error stf = None.
Proof.
  intros Hall. destruct (first_error stf) as [e|] eqn:Hfe; [|done].
  destruct (inv_raised _ _ _ (end_pool_inv self sched) e Hfe) as (j & Hj).
  rewrite end_pool_threads, list_lookup_fmap in Hj.
  destruct (l !! j) as [args|] eqn:Hargs; [|done].
  destruct (Hall args) as [v Hv]; [by eapply list_elem_of_lookup_2|].
  simpl in Hj. rewrite Hv in Hj. discriminate.
Qed.

(** When no error reached the pool every job handed back a value. *)
Lemma end_pool_all_returned j args :
  first_error stf = None -> l !! j = Some args ->
  exists v, job_fate track f args = Return v.
Proof.
  intros Hfe Hj. destruct (end_pool_job j args Hj) as [Hth _].
  destruct (job_fate track f args) as [v|e] eqn:Hfate; [by exists v|].
  pose proof (inv_error _ _ _ (end_pool_inv self sched) Hfe j e Hth)
    as Hps.
  rewrite list_lookup_imap, Hj in Hps. simpl in Hps.
  injection Hps as Hps.
  pose proof (fwf_not_finished track f j args) as Hnf.
  rewrite Hps in Hnf. discriminate.
Qed.
End start_end.

Lemma end_pool_shared self sched :
  shared (end_pool self sched)
  = job_final (track_failures self) (func self) <$> p_args self.
Proof.
  apply list_eq. intros j. rewrite list_lookup_fmap.
  destruct (p_args self !! j) as [args|] eqn:Hj; simpl.
  - by apply end_pool_slot.
  - apply lookup_ge_None_2.
    rewrite (inv_length _ _ _ (end_pool_inv self sched)), length_replicate.
    by apply lookup_ge_None_1.
Qed.

(** In isolating mode, when the pool takes the process count and the
    user function raises nothing outside [Exception], the whole outcome of
    [start] is fixed by the arguments, whatever the schedule. *)
Lemma start_isolating self sched :
  Pool (processes self) = Return tt ->
  track_failures self = true ->
  (forall args e, args ∈ p_args self -> func self args = Raise e ->
                  is_Exception e = true) ->
  start self sched
  = let n := length (p_args self) in
    let scl := job_final true (func self) <$> p_args self in
    let failed := filter (fun i_job => scl !! i_job = Some SymF) (seq 0 n) in
    {| result := Returned (job_value (func self) <$> p_args self);
       failed_i_jobs := Some failed;
       final_list := scl;
       main_log :=
         (replicate n (MAppend SymQ)
            ++ [MReporterStart (report_on_change self) (report_rate self)]
            ++ [MPool (processes self); MStarmap true n])
           ++ [MJoin]
           ++ (if decide (0 < length failed)
               then [MPrint (summary_line failed)] else []) |}.
Proof.
  intros Hpool Htrack Hexc.
  assert (Hfate : forall args, args ∈ p_args self ->
            job_fate (track_failures self) (func self) args
            = Return (job_value (func self) args)).
  { intros args Hin. unfold job_fate, job_value, contained. rewrite Htrack.
    destruct (func self args) as [v|e] eqn:Hf; [done|].
    by rewrite (Hexc args e Hin Hf). }
  rewrite start_eq by done. simpl.
  rewrite end_pool_no_error by (intros args Hin; eexists; by apply Hfate).
  rewrite end_pool_shared.
  rewrite end_pool_threads, Htrack. simpl. f_equal. f_equal.
  change (map ?g ?l) with (g <$> l). rewrite <- list_fmap_compose.
  apply list_fmap_ext. intros i args Hi. simpl.
  rewrite <- Htrack, Hfate; [done|]. by eapply list_elem_of_lookup_2.
Qed.

(** ** The claims about workers and [start] *)


(** C8.  Whenever [start] returns a result list, whatever the schedule,
    the list is as long as the argument list and its [i]-th entry is the
    value of the [i]-th job: what the user function returned for the
    [i]-th arguments, or [None] for a call that raised, which happens in
    isolating mode only and for an [Exception] only. *)
Theorem start_result_in_order (self : ReportingPool) (sched : list nat)
    (res : list pyvalue) :
  result (start self sched) = Returned res ->
  length res = length (p_args self)
  /\ forall i args, p_args self !! i = Some args ->
       match func self args with
       | Return v => res !! i = Some v
       | Raise e =>
           res !! i = Some PyNone
           /\ track_failures self = true /\ is_Exception e = true
       end.
Proof.
  intros Hres. pose proof (start_returned_valid self sched res Hres) as Hpool.
  revert Hres. rewrite start_eq by done. simpl.
  destruct (first_error (end_pool self sched)) as [e|] eqn:Hfe; [done|].
  intros Hres.
  assert (Hres' : res = map value_of (threads (end_pool self sched))).
  { destruct (track_failures self); simpl in Hres; congruence. }
  subst res. change (map ?g ?l) with (g <$> l).
  rewrite end_pool_threads, !length_fmap. split; [done|].
  intros i args Hi. rewrite !list_lookup_fmap, Hi. simpl.
  destruct (end_pool_all_returned self sched i args Hfe Hi) as [v Hv].
  rewrite Hv. unfold job_fate, contained in Hv.
  destruct (func self args) as [w|e]; [by injection Hv as ->|].
  destruct (track_failures self), (is_Exception e); simpl in Hv;
    try discriminate. by injection Hv as <-.
Qed.


(** C10.  The failure-tracking wrapper does not contain an error outside
    [Exception]: the error leaves the wrapper, the slot stays at [R] and
    nothing is written after the call. *)
Theorem track_failure_passes_base_exception (f : pyfunc) (i : nat)
    (args : list pyvalue) (scl : list symbol) (e : exc) :
  i < length scl ->
  f args = Raise e ->
  is_Exception e = false ->
  run (_function_wrapper_track_failure f i args) scl
  = (Raise e, <[i:=SymR]> scl, [EvWrite i SymR; EvCall args])
  /\ <[i:=SymR]> scl !! i = Some SymR.
Proof.
  intros Hi Hf He. split; [|by apply list_lookup_insert_eq].
  rewrite run_function_wrapper_track_failure by done.
  unfold job_fate, job_final, job_script, job_final, contained.
  by rewrite Hf, He.
Qed.

(** C9, at a job that fails.  In isolating mode, with a user function
    that raises [ValueError(msg)] for job 0: the wrapper builds the text
    naming the job and [msg], and then everything that can be seen of the
    wrapper and of [start] (the returned value, the writes to the slot,
    the result list, the failed indices, the summary line) is the same
    for every [msg]: the text is kept nowhere. *)
Theorem failure_text_discarded (msg : string) (sched : list nat) :
  let f : pyfunc := fun _ => Raise (mk_exc ValueError msg) in
  let self := __init__ f [[PyInt 0]] None 60 false true in
  failure_text 0 (mk_exc ValueError msg)
  = "Job #0 failed with error:" +:+ newline +:+ msg +:+ newline
  /\ run (_function_wrapper_track_failure f 0 [PyInt 0]) [SymQ]
     = (Return PyNone, [SymF],
        [EvWrite 0 SymR; EvCall [PyInt 0]; EvWrite 0 SymF])
  /\ start self sched
     = {| result := Returned [PyNone];
          failed_i_jobs := Some [0];
          final_list := [SymF];
          main_log :=
            [MAppend SymQ; MReporterStart false 60; MPool None;
             MStarmap true 1; MJoin;
             MPrint "Job 0 was not finished correctly."] |}.
Proof.
  intros f self. split; [done|]. split; [done|].
  rewrite start_isolating; [done | done | done |].
  intros args e _ [= <-]. done.
Qed.




(** ** The reporter *)

Lemma sum_b2n_le (dl : list bool) :
  sum_list (map Nat.b2n dl) <= length dl.
Proof. induction dl as [|[] dl IH]; simpl; lia. Qed.

(** Python's [sum(scl) < len(scl)] when not [all(done_list)]. *)
Lemma sum_b2n_lt (dl : list bool) :
  all dl = false -> sum_list (map Nat.b2n dl) < length dl.
Proof.
  unfold all. induction dl as [|[] dl IH]; simpl; [done| |].
  - intros H. specialize (IH H). lia.
  - intros _. pose proof (sum_b2n_le dl). lia.
Qed.

Lemma all_replicate_false n : 1 <= n -> all (replicate n false) = false.
Proof. destruct n; [lia|done]. Qed.

Lemma of_nat_nonzero n : 1 <= n -> Qeq_bool (of_nat n) 0 = false.
Proof.
  intros Hn. apply not_true_iff_false. intros H%Qeq_bool_iff.
  unfold of_nat, Qeq in H. simpl in H. lia.
Qed.

Lemma fraction_below_100 n len :
  n < len -> (of_nat n / of_nat len < 1)%Q.
Proof.
  intros Hlt. apply Qlt_shift_div_r.
  - unfold of_nat. change 0%Q with (inject_Z 0). rewrite <- Zlt_Qlt. lia.
  - rewrite Qmult_1_l. unfold of_nat. rewrite <- Zlt_Qlt. lia.
Qed.


(** A report on a non-empty done-list prints one line and cannot fail. *)
Lemma print_report_ok dl start env st :
  1 <= length dl ->
  _print_report dl start env st
  = Done tt
      {| tick := S (S (tick st));
         slept := slept st;
         out := out st ++
           [Report (of_nat (sum_list (map Nat.b2n dl)) / of_nat (length dl))
              (clock env (tick st) - start)
              (eta_of (clock env (tick st) - start)
                 (sum_list (map Nat.b2n dl)) (length dl))
              (join (view env (S (tick st))))] |}.
Proof.
  intros Hlen. unfold _print_report, eta_of.
  unfold mbind, reporter_mbind, mret, reporter_mret, time_time, read_shared,
    print, py_truediv, advance. simpl.
  rewrite length_map, (of_nat_nonzero (length dl)) by done.
  case_decide as Hn; [done|].
  by rewrite of_nat_nonzero by lia.
Qed.


Lemma report_ok_in_loop dl tp e lst :
  all dl = false ->
  report_ok (Report (of_nat (sum_list (map Nat.b2n dl)) / of_nat (length dl))
               tp e lst).
Proof. intros H. split; [done|]. by apply fraction_below_100, sum_b2n_lt. Qed.

Lemma all_false_length dl : all dl = false -> 1 <= length dl.
Proof. destruct dl; [done | simpl; lia]. Qed.

Section loops.
Context (env : renv) (sleep_period start_time : Q) (T : nat).
Hypothesis Hsleep : Qle_bool 0 sleep_period = true.
Hypothesis Hterm :
  forall t, T <= t -> all (map is_terminal (view env t)) = true.

Lemma periodic_loop_done fuel : forall dl st,
  T <= tick st + fuel -> (fuel = 0 -> all dl = true) ->
  exists st' reports,
    periodic_loop fuel sleep_period start_time dl env st = Done tt st'
    /\ out st' = out st ++ reports /\ Forall report_ok reports.
Proof.
  induction fuel as [|fuel IH]; intros dl st Htick Hdl.
  - simpl. rewrite Hdl by done. exists st, []. by rewrite app_nil_r.
  - simpl. destruct (all dl) eqn:Hall.
    { exists st, []. by rewrite app_nil_r. }
    unfold mbind, reporter_mbind.
    rewrite print_report_ok by (by apply all_false_length).
    unfold time_sleep, read_shared, advance. rewrite Hsleep. simpl.
    edestruct (IH (map is_terminal (view env (S (S (S (tick st)))))))
      as (st' & reports & Hrun & Hout & Hok); [| |rewrite Hrun].
    + simpl. lia.
    + intros ->. apply Hterm. lia.
    + eexists st', (_ :: reports). split; [done|]. split.
      * rewrite Hout. simpl. rewrite <- app_assoc. reflexivity.
      * constructor; [by apply report_ok_in_loop | done].
Qed.

Lemma on_change_loop_done fuel : forall dl dlp st,
  T <= tick st + fuel -> (fuel = 0 -> all dl = true) ->
  exists st' reports,
    on_change_loop fuel sleep_period start_time dl dlp env st = Done tt st'
    /\ out st' = out st ++ reports /\ Forall report_ok reports.
Proof.
  induction fuel as [|fuel IH]; intros dl dlp st Htick Hdl.
  - simpl. rewrite Hdl by done. exists st, []. by rewrite app_nil_r.
  - simpl. destruct (all dl) eqn:Hall.
    { exists st, []. by rewrite app_nil_r. }
    unfold mbind, reporter_mbind. destruct (changed dl dlp).
    + rewrite print_report_ok by (by apply all_false_length).
      unfold mret, reporter_mret, time_sleep, read_shared, advance.
      rewrite Hsleep. simpl.
      edestruct (IH (map is_terminal (view env (S (S (S (tick st))))))
                    dl)
        as (st' & reports & Hrun & Hout & Hok); [| |rewrite Hrun].
      * simpl. lia.
      * intros ->. apply Hterm. lia.
      * eexists st', (_ :: reports). split; [done|]. split.
        -- rewrite Hout. simpl. rewrite <- app_assoc. reflexivity.
        -- constructor; [by apply report_ok_in_loop | done].
    + unfold mret, reporter_mret, time_sleep, read_shared, advance.
      rewrite Hsleep. simpl.
      edestruct (IH (map is_terminal (view env (S (tick st)))) dlp)
        as (st' & reports & Hrun & Hout & Hok); [| |rewrite Hrun].
      * simpl. lia.
      * intros ->. apply Hterm. lia.
      * by exists st', reports.
Qed.
End loops.

Lemma sleep_period_ok rate :
  (0 < rate)%Q ->
  Qeq_bool rate 0 = false /\ Qle_bool 0 (1 / rate) = true.
Proof.
  intros Hrate. split.
  - apply not_true_iff_false. intros H%Qeq_bool_iff. rewrite H in Hrate.
    by apply Qlt_irrefl in Hrate.
  - apply Qle_bool_iff, Qle_shift_div_l; [done|].
    rewrite Qmult_0_l. done.
Qed.

Lemma all_map_terminal l : all (map is_terminal l) = forallb is_terminal l.
Proof. unfold all. induction l as [|x l IH]; simpl; by rewrite ?IH. Qed.

Lemma periodic_process_done env rate T fuel :
  (0 < rate)%Q ->
  (forall t, T <= t -> forallb is_terminal (view env t) = true) ->
  T < fuel ->
  exists st reports elapsed,
    _periodic_reporting_process fuel rate env rstate0 = Done tt st
    /\ out st = reports ++ [Finished elapsed]
    /\ Forall report_ok reports.
Proof.
  intros [Hrate Hsleep]%sleep_period_ok Hterm Hfuel.
  unfold _periodic_reporting_process, mbind, reporter_mbind, py_truediv.
  rewrite Hrate.
  unfold mret, reporter_mret, len_shared, time_time, advance. simpl.
  assert (Hterm' : forall t, T <= t ->
            all (map is_terminal (view env t)) = true).
  { intros t Ht. rewrite all_map_terminal. by apply Hterm. }
  destruct (periodic_loop_done env (1 / rate) (clock env 1) T Hsleep Hterm'
              fuel (replicate (length (view env 0)) false)
              {| tick := 2; slept := []; out := [] |})
    as (st' & reports & Hrun & Hout & Hok);
    [simpl; lia | intros ->; lia |].
  rewrite Hrun. unfold print. simpl in Hout. rewrite Hout.
  by eexists _, reports, _.
Qed.

Lemma on_change_process_done env rate T fuel :
  (0 < rate)%Q ->
  1 <= length (view env 0) ->
  (forall t, T <= t -> forallb is_terminal (view env t) = true) ->
  T < fuel ->
  exists st reports elapsed,
    _on_change_reporting_process fuel rate env rstate0 = Done tt st
    /\ out st = reports ++ [Finished elapsed]
    /\ Forall report_ok reports.
Proof.
  intros [Hrate Hsleep]%sleep_period_ok Hlen Hterm Hfuel.
  unfold _on_change_reporting_process, mbind, reporter_mbind, py_truediv.
  rewrite Hrate.
  unfold mret, reporter_mret, len_shared, time_time, advance. simpl.
  rewrite print_report_ok by (by rewrite length_replicate). simpl.
  assert (Hterm' : forall t, T <= t ->
            all (map is_terminal (view env t)) = true).
  { intros t Ht. rewrite all_map_terminal. by apply Hterm. }
  match goal with
  | |- context [on_change_loop fuel ?sp ?t0 ?dl ?dlp env ?st] =>
      destruct (on_change_loop_done env sp t0 T Hsleep Hterm' fuel dl dlp st)
        as (st' & reports & Hrun & Hout & Hok);
        [simpl; lia | intros ->; lia |]
  end.
  rewrite Hrun. unfold print. simpl in Hout. rewrite Hout.
  eexists _, (_ :: reports), _. split; [done|]. split; [done|].
  constructor; [|done]. apply report_ok_in_loop.
  by apply all_replicate_false.
Qed.

(** C5, as the code has it.  For a batch of [n >= 1] jobs whose slots are
    all terminal from some moment on, and a positive report rate, both
    reporters finish (given fuel for the waiting), and what each has
    printed is: progress lines, every one with a completed fraction
    strictly below one, then the completion-time line and nothing else.
    No report of the all-terminal state is printed by either. *)
Theorem reporters_end_with_summary_only (env : renv) (rate : Q)
    (n T fuel : nat) :
  (0 < rate)%Q ->
  1 <= n ->
  (forall t, length (view env t) = n) ->
  (forall t, T <= t -> forallb is_terminal (view env t) = true) ->
  T < fuel ->
  (exists st reports elapsed,
     _periodic_reporting_process fuel rate env rstate0 = Done tt st
     /\ out st = reports ++ [Finished elapsed]
     /\ Forall (fun l => is_report l = true /\ below_100 l) reports)
  /\ (exists st reports elapsed,
        _on_change_reporting_process fuel rate env rstate0 = Done tt st
        /\ out st = reports ++ [Finished elapsed]
        /\ Forall (fun l => is_report l = true /\ below_100 l) reports).
Proof.
  intros Hrate Hn Hlen Hterm Hfuel. split.
  - by apply (periodic_process_done env rate T fuel).
  - apply (on_change_process_done env rate T fuel); try done.
    rewrite Hlen. done.
Qed.

(** C5 as stated fails: two jobs that end one after the other.  The
    periodic reporter prints 0%, 0%, 50% and the completion-time line; the
    on-change reporter prints 0%, 50% and the completion-time line.
    Neither prints a 100% report, although the last list shown is all
    terminal. *)
Lemma no_final_report_printed :
  _periodic_reporting_process 9 2 two_jobs_env rstate0
  = Done tt
      {| tick := 15;
         slept := [1 # 2; 1 # 2; 1 # 2]%Q;
         out := [Report (0 # 2) 1 NaN "QR";
                 Report (0 # 2) 5 NaN "RS";
                 Report (1 # 2) 9 (Seconds 9) "SF";
                 Finished 13] |}
  /\ _on_change_reporting_process 9 2 two_jobs_env rstate0
     = Done tt
         {| tick := 12;
            slept := [1 # 2; 1 # 2]%Q;
            out := [Report (0 # 2) 1 NaN "QR";
                    Report (1 # 2) 5 (Seconds 5) "RS";
                    Finished 9] |}.
Proof. split; vm_compute; reflexivity. Qed.

(** C6.  On a done-list with at least one entry, printing a report
    cannot fail: it prints one line; the estimate in it is the marker
    [NaN] when no job is done, and otherwise the time passed, divided by
    the number of jobs done, times the number of jobs left. *)
Theorem eta_never_divides_by_zero (done_list : list bool) (start_time : Q)
    (env : renv) (st : rstate) :
  1 <= length done_list ->
  let n_completed := sum_list (map Nat.b2n done_list) in
  let time_passed := (clock env (tick st) - start_time)%Q in
  exists fraction lst st',
    _print_report done_list start_time env st = Done tt st'
    /\ out st'
       = out st ++
         [Report fraction time_passed
            (if decide (n_completed = 0) then NaN
             else Seconds
                    (time_passed / of_nat n_completed
                     * inject_Z (Z.of_nat (length done_list)
                                 - Z.of_nat n_completed))%Q)
            lst].
Proof.
  intros Hlen n_completed time_passed. rewrite print_report_ok by done.
  by eexists _, _, _.
Qed.

(** C4, as the code has it.  With no job and a process count the pool
    accepts, [start] returns the empty result list and the shared list
    stays empty; the periodic reporter,
    for a report rate other than zero, prints no progress report: it
    prints the completion-time line alone and ends without sleeping. *)
Theorem zero_jobs (self : ReportingPool) (sched : list nat) (env : renv)
    (rate : Q) (fuel : nat) :
  Pool (processes self) = Return tt ->
  p_args self = [] ->
  (forall t, view env t = []) ->
  ~ (rate == 0)%Q ->
  result (start self sched) = Returned []
  /\ final_list (start self sched) = []
  /\ _periodic_reporting_process fuel rate env rstate0
     = Done tt {| tick := 3; slept := [];
                  out := [Finished (clock env 2 - clock env 1)] |}.
Proof.
  intros Hpool Hargs Hview Hrate. split; [|split].
  - rewrite start_eq by done. simpl. rewrite end_pool_no_error.
    + rewrite end_pool_threads, Hargs. by destruct (track_failures self).
    + rewrite Hargs. intros args Hin. by apply elem_of_nil in Hin.
  - rewrite start_eq by done. simpl. rewrite end_pool_no_error.
    + rewrite end_pool_shared, Hargs. by destruct (track_failures self).
    + rewrite Hargs. intros args Hin. by apply elem_of_nil in Hin.
  - unfold _periodic_reporting_process, mbind, reporter_mbind, py_truediv.
    destruct (Qeq_bool rate 0) eqn:Hq; [by apply Qeq_bool_iff in Hq|].
    unfold mret, reporter_mret, len_shared, time_time, advance. simpl.
    rewrite Hview. simpl. by destruct fuel.
Qed.

(** C4 as stated fails: with no job the periodic reporter prints the
    completion-time line and no report at all, and the on-change reporter
    stops on a division by zero before it has printed anything. *)
Lemma zero_jobs_no_report :
  _periodic_reporting_process 5 60 no_job_env rstate0
  = Done tt {| tick := 3; slept := []; out := [Finished 1] |}
  /\ _on_change_reporting_process 5 60 no_job_env rstate0
     = Crash (mk_exc ZeroDivisionError "division by zero")
         {| tick := 4; slept := []; out := [] |}.
Proof. split; vm_compute; reflexivity. Qed.

(** ** Runs on concrete inputs *)

Example wrapper_strict_ok :
  run (_function_wrapper _reporting_pool_test_func_wof 1 [PyInt 3])
      [SymQ; SymQ]
  = (Return (PyInt 9), [SymQ; SymS],
     [EvWrite 1 SymR; EvCall [PyInt 3]; EvWrite 1 SymS]).
Proof. reflexivity. Qed.

Example wrapper_track_fail :
  run (_function_wrapper_track_failure _reporting_pool_test_func_wf 0
         [PyInt 6]) [SymQ; SymQ]
  = (Return PyNone, [SymF; SymQ],
     [EvWrite 0 SymR; EvCall [PyInt 6]; EvWrite 0 SymF]).
Proof. reflexivity. Qed.

(** The second example of the source file, cut to twelve jobs, under a
    schedule that interleaves three of them. *)
Example twelve_jobs_isolating :
  start (__init__ _reporting_pool_test_func_wf twelve_jobs None 20 false
           true) [3; 0; 7; 0; 3; 3; 7]
  = {| result :=
         Returned [PyNone; PyInt 1; PyInt 4; PyInt 9; PyInt 16; PyInt 25;
                   PyNone; PyInt 49; PyInt 64; PyInt 81; PyInt 100;
                   PyInt 121];
       failed_i_jobs := Some [0; 6];
       final_list := [SymF; SymS; SymS; SymS; SymS; SymS;
                      SymF; SymS; SymS; SymS; SymS; SymS];
       main_log :=
         replicate 12 (MAppend SymQ)
           ++ [MReporterStart false 20; MPool None; MStarmap true 12; MJoin;
               MPrint "Jobs 0, 6 were not finished correctly."] |}.
Proof. vm_compute. reflexivity. Qed.

Lemma test_func_wf_raises_Exception args e :
  _reporting_pool_test_func_wf args = Raise e -> is_Exception e = true.
Proof.
  unfold _reporting_pool_test_func_wf.
  destruct args as [|[|v|s] [|]]; try (by intros [= <-]).
  destruct (v mod 6 =? 0)%Z; [by intros [= <-] | discriminate].
Qed.

(** ** The theorems at concrete inputs *)


(** C8 at two jobs whose effects are interleaved, the second finishing
    first. *)
Lemma start_result_in_order_witness :
  let self :=
    __init__ _reporting_pool_test_func_wof [[PyInt 2]; [PyInt 3]] None 60
      true false in
  result (start self [1; 1; 0; 1]) = Returned [PyInt 4; PyInt 9]
  /\ length [PyInt 4; PyInt 9] = length (p_args self)
  /\ forall i args, p_args self !! i = Some args ->
       match func self args with
       | Return v => [PyInt 4; PyInt 9] !! i = Some v
       | Raise e =>
           [PyInt 4; PyInt 9] !! i = Some PyNone
           /\ track_failures self = true /\ is_Exception e = true
       end.
Proof.
  intros self. split; [reflexivity|].
  apply (start_result_in_order self [1; 1; 0; 1] [PyInt 4; PyInt 9]).
  reflexivity.
Defined.


(** C10 at a user function that raises [KeyboardInterrupt]. *)
Lemma track_failure_passes_base_exception_witness :
  let e := mk_exc KeyboardInterrupt "" in
  let f : pyfunc := fun _ => Raise e in
  run (_function_wrapper_track_failure f 1 [PyInt 5]) [SymQ; SymQ]
  = (Raise e, <[1:=SymR]> [SymQ; SymQ], [EvWrite 1 SymR; EvCall [PyInt 5]])
  /\ <[1:=SymR]> [SymQ; SymQ] !! 1 = Some SymR.
Proof.
  intros e f.
  apply (track_failure_passes_base_exception f 1 [PyInt 5] [SymQ; SymQ] e).
  - simpl. lia.
  - reflexivity.
  - reflexivity.
Defined.

Lemma two_jobs_env_length t : length (view two_jobs_env t) = 2.
Proof. simpl. by repeat case_decide. Qed.

Lemma two_jobs_env_terminal t :
  10 <= t -> forallb is_terminal (view two_jobs_env t) = true.
Proof. intros Ht. simpl. repeat case_decide; try lia. done. Qed.

(** C5 at two jobs that are both done from the tenth effect on. *)
Lemma reporters_end_with_summary_only_witness :
  (exists st reports elapsed,
     _periodic_reporting_process 11 2 two_jobs_env rstate0 = Done tt st
     /\ out st = reports ++ [Finished elapsed]
     /\ Forall (fun l => is_report l = true /\ below_100 l) reports)
  /\ (exists st reports elapsed,
        _on_change_reporting_process 11 2 two_jobs_env rstate0 = Done tt st
        /\ out st = reports ++ [Finished elapsed]
        /\ Forall (fun l => is_report l = true /\ below_100 l) reports).
Proof.
  apply (reporters_end_with_summary_only two_jobs_env 2 2 10 11).
  - reflexivity.
  - lia.
  - exact two_jobs_env_length.
  - exact two_jobs_env_terminal.
  - lia.
Defined.

(** C6 at a done-list with two jobs done out of three. *)
Lemma eta_never_divides_by_zero_witness :
  exists fraction lst st',
    _print_report [true; false; true] 1 two_jobs_env rstate0 = Done tt st'
    /\ out st'
       = [Report fraction (clock two_jobs_env 0 - 1)
            (Seconds ((clock two_jobs_env 0 - 1) / of_nat 2
                      * inject_Z (Z.of_nat 3 - Z.of_nat 2))%Q)
            lst].
Proof.
  apply (eta_never_divides_by_zero [true; false; true] 1 two_jobs_env
           rstate0).
  simpl. lia.
Defined.

(** C4 at an empty argument list. *)
Lemma zero_jobs_witness :
  let self := __init__ _reporting_pool_test_func_wof [] None 60 true false in
  result (start self [0; 1]) = Returned []
  /\ final_list (start self [0; 1]) = []
  /\ _periodic_reporting_process 4 60 no_job_env rstate0
     = Done tt {| tick := 3; slept := [];
                  out := [Finished (clock no_job_env 2
                                    - clock no_job_env 1)] |}.
Proof.
  intros self. apply (zero_jobs self [0; 1] no_job_env 60 4).
  - reflexivity.
  - reflexivity.
  - reflexivity.
  - intros H. discriminate H.
Defined.

(** * Further properties of the code *)

(** ** Wrappers at the bounds of the shared list *)

Lemma run_fwf_out_of_range track f i args scl :
  length scl <= i ->
  run (fwf_of track f i args) scl
  = (Raise (mk_exc IndexError "list assignment index out of range"), scl,
     [EvIndexError i]).
Proof.
  intros Hi. destruct track; simpl; unfold py_setitem;
    by rewrite decide_False by lia.
Qed.

(** X1.  A wrapper whose job index is outside the shared list stops at
    its first statement with [IndexError]: the user function is not
    called and the list is left as it was, in both modes (the write of
    [R] comes before the [try]). *)
Theorem wrapper_index_out_of_range (track : bool) (f : pyfunc) (i : nat)
    (args : list pyvalue) (scl : list symbol) :
  length scl <= i ->
  run (fwf_of track f i args) scl
  = (Raise (mk_exc IndexError "list assignment index out of range"), scl,
     [EvIndexError i])
  /\ forall a, EvCall a ∉ run_events (fwf_of track f i args) scl.
Proof.
  intros Hi. split; [by apply run_fwf_out_of_range|].
  intros a. unfold run_events. rewrite run_fwf_out_of_range by done.
  simpl. intros H%list_elem_of_singleton. discriminate.
Qed.

(** X2.  A wrapper writes no slot but its own: every other slot of the
    shared list, and the length of the list, are the same after the
    wrapper as before, whatever the user function does. *)
Theorem wrapper_keeps_other_slots (track : bool) (f : pyfunc) (i j : nat)
    (args : list pyvalue) (scl : list symbol) :
  j <> i ->
  (run (fwf_of track f i args) scl).1.2 !! j = scl !! j
  /\ length (run (fwf_of track f i args) scl).1.2 = length scl.
Proof.
  intros Hne. destruct (decide (i < length scl)) as [Hi|Hi].
  - rewrite run_fwf by done. simpl.
    by rewrite list_lookup_insert_ne, length_insert.
  - by rewrite run_fwf_out_of_range by lia.
Qed.

(** ** [start] in strict mode and at the end of a run *)

Lemma filter_none {A} (P : A -> Prop) `{forall x, Decision (P x)}
    (l : list A) :
  (forall x, x ∈ l -> ~ P x) -> filter P l = [].
Proof.
  induction l as [|x l IH]; intros Hl; [done|].
  rewrite filter_cons_False by (apply Hl; left).
  apply IH. intros y Hy. apply Hl. by right.
Qed.

(** When the pool takes the process count and no call raises, the
    outcome of [start] is fixed by the arguments, in both modes and
    whatever the schedule. *)
Lemma start_no_raise self sched :
  Pool (processes self) = Return tt ->
  (forall args, args ∈ p_args self -> exists v, func self args = Return v) ->
  start self sched
  = {| result := Returned (job_value (func self) <$> p_args self);
       failed_i_jobs := if track_failures self then Some [] else None;
       final_list := replicate (length (p_args self)) SymS;
       main_log := start_head self ++ [MJoin] |}.
Proof.
  intros Hpool Hret.
  assert (Hfate : forall args, args ∈ p_args self ->
            job_fate (track_failures self) (func self) args
            = Return (job_value (func self) args)).
  { intros args Hin. unfold job_fate, job_value.
    by destruct (Hret args Hin) as [v ->]. }
  assert (Hfinal : job_final (track_failures self) (func self) <$> p_args self
                   = replicate (length (p_args self)) SymS).
  { rewrite <- (length_fmap (job_final (track_failures self) (func self))).
    symmetry. apply replicate_as_Forall_2; [done|].
    apply Forall_fmap, Forall_forall.
    intros args Hin. simpl. unfold job_final.
    by destruct (Hret args Hin) as [v ->]. }
  rewrite start_eq by done. simpl.
  rewrite end_pool_no_error by (intros args Hin; eexists; by apply Hfate).
  rewrite end_pool_shared, end_pool_threads, Hfinal.
  assert (Hres : map value_of
            ((fun args => lift (job_fate (track_failures self) (func self)
                                  args)) <$> p_args self)
          = job_value (func self) <$> p_args self).
  { change (map ?g ?l) with (g <$> l). rewrite <- list_fmap_compose.
    apply list_fmap_ext. intros k args Hk. simpl.
    rewrite Hfate; [done|]. by eapply list_elem_of_lookup_2. }
  rewrite Hres. unfold start_head.
  destruct (track_failures self); simpl; rewrite <- ?app_assoc; simpl;
    [|done].
  assert (Hnone : filter
            (fun i_job => replicate (length (p_args self)) SymS !! i_job
                          = Some SymF)
            (seq 0 (length (p_args self))) = []).
  { apply filter_none. intros k _ Hk.
    apply lookup_replicate_1 in Hk as [Hk _]. discriminate. }
  by rewrite Hnone.
Qed.

(** X3.  With a process count the pool accepts, when no call of the user
    function raises, [start] returns the
    list of the returned values in argument order, in both modes and for
    every schedule; every slot ends at [S]; in isolating mode the failed
    indices are the empty list; and the calling process prints nothing
    (after the join there is no summary line). *)
Theorem start_without_failure (self : ReportingPool) (sched : list nat) :
  Pool (processes self) = Return tt ->
  (forall args, args ∈ p_args self -> exists v, func self args = Return v) ->
  result (start self sched)
  = Returned ((fun args => match func self args with
                           | Return v => v
                           | Raise _ => PyNone
                           end) <$> p_args self)
  /\ failed_i_jobs (start self sched)
     = (if track_failures self then Some [] else None)
  /\ final_list (start self sched) = replicate (length (p_args self)) SymS
  /\ main_log (start self sched) = start_head self ++ [MJoin].
Proof.
  intros Hpool Hret. by rewrite (start_no_raise self sched Hpool Hret).
Qed.

(** X4.  In strict mode, with a process count the pool accepts, when
    some call raises (and the errors raised are below [Exception]),
    [start] returns no list: it ends with the error of
    one of the raising calls, [self.failed_i_jobs] is not set, and the
    calling process neither joins the reporter nor prints. *)
Theorem strict_failure_propagates (self : ReportingPool) (sched : list nat) :
  Pool (processes self) = Return tt ->
  track_failures self = false ->
  (forall args e, args ∈ p_args self -> func self args = Raise e ->
                  is_Exception e = true) ->
  (exists args e, args ∈ p_args self /\ func self args = Raise e) ->
  (exists i args e,
     p_args self !! i = Some args /\ func self args = Raise e
     /\ result (start self sched) = Raised e)
  /\ failed_i_jobs (start self sched) = None
  /\ main_log (start self sched) = start_head self.
Proof.
  intros Hpool Htrack _ (args & e & Hin & He).
  apply list_elem_of_lookup_1 in Hin as [i Hi].
  rewrite start_eq by done. simpl.
  destruct (first_error (end_pool self sched)) as [e'|] eqn:Hfe.
  - split; [|done].
    destruct (inv_raised _ _ _ (end_pool_inv self sched) e' Hfe) as (j & Hj).
    rewrite end_pool_threads, list_lookup_fmap in Hj.
    destruct (p_args self !! j) as [args'|] eqn:Hargs; [|done].
    exists j, args', e'. split; [done|]. split; [|done].
    simpl in Hj. unfold job_fate in Hj.
    destruct (func self args') as [v|e'']; [done|].
    destruct (contained _ e''); [done|]. by injection Hj as ->.
  - destruct (end_pool_all_returned self sched i args Hfe Hi) as [v Hv].
    unfold job_fate, contained in Hv. by rewrite He, Htrack in Hv.
Qed.

(** X5.  Whenever [start] returns a result list, whatever the mode and
    the schedule, the shared list has one slot per job and every slot is
    terminal: [S] where the call returned and [F] where it raised; so the
    exit condition of the reporters holds of the list. *)
Theorem returned_list_all_terminal (self : ReportingPool) (sched : list nat)
    (res : list pyvalue) :
  result (start self sched) = Returned res ->
  final_list (start self sched)
  = (fun args => match func self args with
                 | Return _ => SymS
                 | Raise _ => SymF
                 end) <$> p_args self
  /\ all (map is_terminal (final_list (start self sched))) = true.
Proof.
  intros Hres. pose proof (start_returned_valid self sched res Hres) as Hpool.
  revert Hres. rewrite start_eq by done. simpl.
  destruct (first_error (end_pool self sched)) as [e|] eqn:Hfe; [done|].
  intros _.
  assert (Hfinal : shared (end_pool self sched)
            = terminal_of (func self) <$> p_args self).
  { rewrite end_pool_shared. apply list_fmap_ext. intros i args Hi.
    destruct (end_pool_all_returned self sched i args Hfe Hi) as [v Hv].
    unfold job_fate in Hv. unfold job_final, terminal_of.
    destruct (func self args) as [w|e]; [done|].
    by destruct (contained _ e). }
  assert (Hterm : all (map is_terminal
                         (terminal_of (func self) <$> p_args self)) = true).
  { rewrite all_map_terminal. apply forallb_forall. intros s Hs.
    apply list_elem_of_In, list_elem_of_fmap in Hs as (args & -> & _).
    unfold terminal_of. by destruct (func self args). }
  destruct (track_failures self); simpl; by rewrite Hfinal.
Qed.

(** X6.  Whenever [start] returns a result list, the pool has run for
    each job exactly these effects, in this order: the write of [R] to
    the job's slot, one call of the user function with the job's
    arguments, the write of the job's terminal symbol.  No job is called
    twice or skipped, whatever the schedule. *)
Theorem returned_each_job_called_once (self : ReportingPool)
    (sched : list nat) (res : list pyvalue) (i : nat)
    (args : list pyvalue) :
  result (start self sched) = Returned res ->
  p_args self !! i = Some args ->
  job_events i (log (end_pool self sched))
  = [EvWrite i SymR; EvCall args;
     EvWrite i (match func self args with
                | Return _ => SymS
                | Raise _ => SymF
                end)].
Proof.
  intros Hres. pose proof (start_returned_valid self sched res Hres) as Hpool.
  revert Hres. rewrite start_eq by done. simpl.
  destruct (first_error (end_pool self sched)) as [e|] eqn:Hfe; [done|].
  intros _ Hi.
  destruct (end_pool_job self sched i args Hi) as [_ ->].
  destruct (end_pool_all_returned self sched i args Hfe Hi) as [v Hv].
  unfold job_fate in Hv. unfold job_script, job_final.
  destruct (func self args) as [w|e]; [done|].
  by destruct (contained _ e).
Qed.



(** ** The two examples at the end of the source file *)

Lemma filter_ext_in {A} (P Q : A -> Prop) `{forall x, Decision (P x)}
    `{forall x, Decision (Q x)} (l : list A) :
  (forall x, x ∈ l -> P x <-> Q x) -> filter P l = filter Q l.
Proof.
  induction l as [|x l IH]; intros Hl; [done|].
  rewrite !filter_cons, IH by (intros y Hy; apply Hl; by right).
  destruct (Hl x) as [H1 H2]; [by left|].
  repeat case_decide; tauto.
Qed.

Lemma test_func_wf_value (v : nat) :
  _reporting_pool_test_func_wf [PyInt (Z.of_nat v)]
  = if v mod 6 =? 0 then Raise (mk_exc ValueError "")
    else Return (PyInt (Z.of_nat v ^ 2)).
Proof.
  unfold _reporting_pool_test_func_wf.
  change 6%Z with (Z.of_nat 6). rewrite <- Nat2Z.inj_mod.
  destruct (Nat.eqb_spec (v mod 6) 0) as [->|Hne]; [done|].
  destruct (Z.eqb_spec (Z.of_nat (v mod 6)) 0); [lia|done].
Qed.

Lemma range_args_lookup n v :
  v < n -> range_args n !! v = Some [PyInt (Z.of_nat v)].
Proof.
  intros Hv. unfold range_args. change (map ?g ?l) with (g <$> l).
  by rewrite list_lookup_fmap, lookup_seq_lt.
Qed.

(** X8.  The two runs of the [__main__] block, for a range of any length
    [n] (the source has 40) and any schedule.  The first (strict mode,
    on-change reports, 8 processes) returns the squares of [0 .. n-1].
    The second (isolating mode, 20 reports a second) returns [None] at
    the multiples of 6 and the squares elsewhere, and records exactly the
    multiples of 6 below [n] as failed. *)
Theorem main_examples (n : nat) (sched : list nat) :
  let pool1 :=
    __init__ _reporting_pool_test_func_wof (range_args n) (Some 8%Z) 60 true
      false in
  let pool2 :=
    __init__ _reporting_pool_test_func_wf (range_args n) None 20 false
      true in
  result (start pool1 sched)
  = Returned ((fun v => PyInt (Z.of_nat v ^ 2)) <$> seq 0 n)
  /\ result (start pool2 sched)
     = Returned ((fun v => if v mod 6 =? 0 then PyNone
                           else PyInt (Z.of_nat v ^ 2)) <$> seq 0 n)
  /\ failed_i_jobs (start pool2 sched)
     = Some (filter (fun v => v mod 6 = 0) (seq 0 n)).
Proof.
  intros pool1 pool2.
  assert (Hexc : forall args e, args ∈ p_args pool2 ->
            func pool2 args = Raise e -> is_Exception e = true).
  { intros args e _ H. exact (test_func_wf_raises_Exception args e H). }
  split; [|split].
  - rewrite start_no_raise.
    + cbn [result func p_args pool1 __init__]. f_equal. unfold range_args.
      change (map ?g ?l) with (g <$> l). rewrite <- list_fmap_compose.
      by apply list_fmap_ext.
    + done.
    + intros args Hin. cbn [func p_args pool1 __init__] in *.
      unfold range_args in Hin.
      apply list_elem_of_In, in_map_iff in Hin as (v & <- & _).
      by eexists.
  - rewrite (start_isolating pool2 sched eq_refl eq_refl Hexc).
    cbn [result func p_args pool2 __init__]. f_equal. unfold range_args.
    change (map ?g ?l) with (g <$> l). rewrite <- list_fmap_compose.
    apply list_fmap_ext. intros i v _. unfold compose, job_value.
    rewrite test_func_wf_value. by destruct (v mod 6 =? 0).
  - rewrite (start_isolating pool2 sched eq_refl eq_refl Hexc).
    cbn [failed_i_jobs func p_args pool2 __init__]. f_equal.
    assert (Hlen : length (range_args n) = n).
    { unfold range_args. change (map ?g ?l) with (g <$> l).
      by rewrite length_fmap, length_seq. }
    rewrite Hlen.
    apply filter_ext_in. intros v [_ Hv]%elem_of_seq.
    rewrite list_lookup_fmap, range_args_lookup by lia.
    unfold job_final, contained. cbn [fmap option_fmap option_map].
    rewrite test_func_wf_value.
    destruct (Nat.eqb_spec (v mod 6) 0); cbn; split; (done || congruence).
Qed.

(** ** Reports *)

Lemma sum_b2n_all (dl : list bool) :
  sum_list (map Nat.b2n dl) = length dl <-> all dl = true.
Proof.
  split.
  - intros Heq. destruct (all dl) eqn:Hall; [done|].
    apply sum_b2n_lt in Hall. lia.
  - unfold all. induction dl as [|[] dl IH]; simpl; [done| |done].
    intros H. by rewrite IH.
Qed.

Lemma of_nat_pos n : 1 <= n -> (0 < of_nat n)%Q.
Proof.
  intros Hn. unfold of_nat. change 0%Q with (inject_Z 0).
  rewrite <- Zlt_Qlt. lia.
Qed.

Lemma of_nat_le n m : n <= m -> (of_nat n <= of_nat m)%Q.
Proof. intros H. unfold of_nat. rewrite <- Zle_Qle. lia. Qed.

(** X9.  On a done-list with at least one entry, [_print_report] prints
    one line, reads the clock once and the shared list once, and does not
    sleep; the fraction in the line lies between 0 and 1, is 1 exactly
    when every entry is done, and is 0 exactly when the estimate is the
    marker [NaN]. *)
Theorem report_fraction_bounds (done_list : list bool) (start_time : Q)
    (env : renv) (st : rstate) :
  1 <= length done_list ->
  exists fraction time_passed est lst st',
    _print_report done_list start_time env st = Done tt st'
    /\ out st' = out st ++ [Report fraction time_passed est lst]
    /\ tick st' = tick st + 2
    /\ slept st' = slept st
    /\ (0 <= fraction <= 1)%Q
    /\ ((fraction == 1)%Q <-> all done_list = true)
    /\ ((fraction == 0)%Q <-> est = NaN).
Proof.
  intros Hlen. rewrite print_report_ok by done.
  eexists _, _, _, _, _. split; [done|]. split; [done|].
  split; [simpl; lia|]. split; [done|].
  pose proof (sum_b2n_le done_list) as Hle.
  pose proof (of_nat_pos _ Hlen) as Hpos.
  set (k := sum_list (map Nat.b2n done_list)) in *.
  split; [split|split].
  - apply Qle_shift_div_l; [done|]. rewrite Qmult_0_l.
    apply (of_nat_le 0). lia.
  - apply Qle_shift_div_r; [done|]. rewrite Qmult_1_l. by apply of_nat_le.
  - rewrite <- sum_b2n_all. fold k. split.
    + intros Heq. destruct (decide (k = length done_list)); [done|].
      assert (Hlt : k < length done_list) by lia.
      apply fraction_below_100 in Hlt. rewrite Heq in Hlt.
      by apply Qlt_irrefl in Hlt.
    + intros ->. apply Qmult_inv_r. intros H0. rewrite H0 in Hpos.
      by apply Qlt_irrefl in Hpos.
  - unfold eta_of. case_decide as Hk.
    + split; [done|]. intros _. rewrite Hk. apply Qmult_0_l.
    + split; [|done]. intros Heq.
      assert (Hlt : (0 < of_nat k / of_nat (length done_list))%Q).
      { apply Qlt_shift_div_l; [done|]. rewrite Qmult_0_l.
        apply of_nat_pos. lia. }
      rewrite Heq in Hlt. by apply Qlt_irrefl in Hlt.
Qed.

Lemma print_report_nil start env st :
  _print_report [] start env st
  = Crash (mk_exc ZeroDivisionError "division by zero") (advance st).
Proof. reflexivity. Qed.

(** X10.  With no job (an empty shared list) and a report rate other
    than zero, the on-change reporter stops with [ZeroDivisionError] in
    its first report, whatever the clock: it has printed nothing and has
    not slept.  The error comes from [_print_report], which divides by
    the length of the done-list. *)
Theorem on_change_fails_without_jobs (env : renv) (rate : Q) (fuel : nat) :
  ~ (rate == 0)%Q ->
  length (view env 0) = 0 ->
  _on_change_reporting_process fuel rate env rstate0
  = Crash (mk_exc ZeroDivisionError "division by zero")
      {| tick := 4; slept := []; out := [] |}
  /\ forall start_time st,
       _print_report [] start_time env st
       = Crash (mk_exc ZeroDivisionError "division by zero") (advance st).
Proof.
  intros Hrate Hlen. split; [|intros; apply print_report_nil].
  unfold _on_change_reporting_process, mbind, reporter_mbind, py_truediv.
  destruct (Qeq_bool rate 0) eqn:Hq; [by apply Qeq_bool_iff in Hq|].
  unfold mret, reporter_mret, len_shared, time_time, advance. simpl.
  by rewrite Hlen.
Qed.

(** X11.  With a report rate of zero both reporters stop at their first
    statement with [ZeroDivisionError]: nothing is read, printed or
    slept, whatever the state of the jobs. *)
Theorem reporters_fail_on_zero_rate (env : renv) (rate : Q) (fuel : nat)
    (st : rstate) :
  (rate == 0)%Q ->
  _periodic_reporting_process fuel rate env st
  = Crash (mk_exc ZeroDivisionError "division by zero") st
  /\ _on_change_reporting_process fuel rate env st
     = Crash (mk_exc ZeroDivisionError "division by zero") st.
Proof.
  intros Hrate%Qeq_bool_iff.
  unfold _periodic_reporting_process, _on_change_reporting_process, mbind,
    reporter_mbind, py_truediv.
  by rewrite Hrate.
Qed.

(** ** The reporter loops *)

Lemma sum_replicate_false n : sum_list (map Nat.b2n (replicate n false)) = 0.
Proof. induction n; simpl; lia. Qed.

(** What a periodic loop leaves behind, however it ends: one sleep of the
    same length after each report; it can only stop on an error when the
    sleep is refused. *)
Lemma periodic_loop_shape env sp start fuel : forall dl st,
  match periodic_loop fuel sp start dl env st with
  | Done _ st' | Spin st' =>
      exists reports,
        out st' = out st ++ reports
        /\ slept st' = slept st ++ replicate (length reports) sp
        /\ Forall report_ok reports
  | Crash _ _ => Qle_bool 0 sp = false
  end.
Proof.
  induction fuel as [|fuel IH]; intros dl st; simpl.
  - destruct (all dl); exists []; by rewrite !app_nil_r.
  - destruct (all dl) eqn:Hall; [exists []; by rewrite !app_nil_r|].
    unfold mbind, reporter_mbind.
    rewrite print_report_ok by (by apply all_false_length).
    unfold time_sleep, read_shared, advance.
    destruct (Qle_bool 0 sp) eqn:Hsleep; [|done]. simpl.
    match goal with
    | |- context [periodic_loop fuel sp start ?dl' env ?st'] =>
        specialize (IH dl' st');
        destruct (periodic_loop fuel sp start dl' env st')
          as [[] st''|e st''|st'']
    end; try done;
      destruct IH as (reports & Hout & Hslept & Hok);
      eexists (_ :: reports); simpl in *;
      (split; [by rewrite Hout, <- app_assoc|]);
      (split; [by rewrite Hslept, <- app_assoc|]);
      (constructor; [by apply report_ok_in_loop | done]).
Qed.

(** The same for the on-change loop: at most one report for each sleep. *)
Lemma on_change_loop_shape env sp start fuel : forall dl dlp st,
  match on_change_loop fuel sp start dl dlp env st with
  | Done _ st' | Spin st' =>
      exists reports k,
        out st' = out st ++ reports
        /\ slept st' = slept st ++ replicate k sp
        /\ length reports <= k
        /\ Forall report_ok reports
  | Crash _ _ => Qle_bool 0 sp = false
  end.
Proof.
  induction fuel as [|fuel IH]; intros dl dlp st; simpl.
  - destruct (all dl); exists [], 0; by rewrite !app_nil_r.
  - destruct (all dl) eqn:Hall; [exists [], 0; by rewrite !app_nil_r|].
    unfold mbind, reporter_mbind. destruct (changed dl dlp).
    + rewrite print_report_ok by (by apply all_false_length).
      unfold mret, reporter_mret, time_sleep, read_shared, advance.
      destruct (Qle_bool 0 sp) eqn:Hsleep; [|done]. simpl.
      match goal with
      | |- context [on_change_loop fuel sp start ?dl' ?dlp' env ?st'] =>
          specialize (IH dl' dlp' st');
          destruct (on_change_loop fuel sp start dl' dlp' env st')
            as [[] st''|e st''|st'']
      end; try done;
        destruct IH as (reports & k & Hout & Hslept & Hle & Hok);
        eexists (_ :: reports), (S k); simpl in *;
        (split; [by rewrite Hout, <- app_assoc|]);
        (split; [by rewrite Hslept, <- app_assoc|]);
        (split; [lia|]);
        (constructor; [by apply report_ok_in_loop | done]).
    + unfold mret, reporter_mret, time_sleep, read_shared, advance.
      destruct (Qle_bool 0 sp) eqn:Hsleep; [|done]. simpl.
      match goal with
      | |- context [on_change_loop fuel sp start ?dl' ?dlp' env ?st'] =>
          specialize (IH dl' dlp' st');
          destruct (on_change_loop fuel sp start dl' dlp' env st')
            as [[] st''|e st''|st'']
      end; try done;
        destruct IH as (reports & k & Hout & Hslept & Hle & Hok);
        exists reports, (S k); simpl in *;
        (split; [done|]);
        (split; [by rewrite Hslept, <- app_assoc|]);
        (split; [lia | done]).
Qed.

(** X12.  Whenever the periodic reporter finishes, what it has printed is
    progress reports followed by the completion-time line, and it has
    slept exactly once per report, each time for [1 / report_rate]. *)
Theorem periodic_one_sleep_per_report (env : renv) (rate : Q) (fuel : nat)
    (st : rstate) :
  _periodic_reporting_process fuel rate env rstate0 = Done tt st ->
  exists reports elapsed,
    out st = reports ++ [Finished elapsed]
    /\ Forall (fun l => is_report l = true /\ below_100 l) reports
    /\ slept st = replicate (length reports) (1 / rate)%Q.
Proof.
  unfold _periodic_reporting_process, mbind, reporter_mbind, py_truediv.
  destruct (Qeq_bool rate 0); [done|].
  unfold mret, reporter_mret, len_shared, time_time, advance. simpl.
  match goal with
  | |- context [periodic_loop fuel ?sp ?t0 ?dl env ?st0] =>
      pose proof (periodic_loop_shape env sp t0 fuel dl st0) as Hshape;
      destruct (periodic_loop fuel sp t0 dl env st0) as [[] st'|e st'|st']
  end; try done.
  destruct Hshape as (reports & Hout & Hslept & Hok).
  unfold print. intros [= <-]. simpl in *.
  exists reports, (clock env (tick st') - clock env 1)%Q.
  by rewrite Hout, Hslept.
Qed.

(** X13.  Whenever the on-change reporter finishes, it has printed first
    a report of no job done (fraction 0, estimate [NaN]), then at most
    one report for each time it slept, all below 100%, then the
    completion-time line. *)
Theorem on_change_first_report_and_rate (env : renv) (rate : Q)
    (fuel : nat) (st : rstate) :
  _on_change_reporting_process fuel rate env rstate0 = Done tt st ->
  exists fraction time_passed lst reports elapsed,
    out st
    = Report fraction time_passed NaN lst :: reports ++ [Finished elapsed]
    /\ (fraction == 0)%Q
    /\ Forall (fun l => is_report l = true /\ below_100 l) reports
    /\ length reports <= length (slept st).
Proof.
  unfold _on_change_reporting_process, mbind, reporter_mbind, py_truediv.
  destruct (Qeq_bool rate 0); [done|].
  unfold mret, reporter_mret, len_shared, time_time, advance. simpl.
  destruct (length (view env 0)) as [|n] eqn:Hn; [done|].
  rewrite print_report_ok by (rewrite length_replicate; lia). simpl.
  match goal with
  | |- context [on_change_loop fuel ?sp ?t0 ?dl ?dlp env ?st0] =>
      pose proof (on_change_loop_shape env sp t0 fuel dl dlp st0) as Hshape;
      destruct (on_change_loop fuel sp t0 dl dlp env st0)
        as [[] st'|e st'|st']
  end; try done.
  destruct Hshape as (reports & k & Hout & Hslept & Hle & Hok).
  unfold print. intros [= <-]. simpl in *.
  rewrite sum_replicate_false in Hout. unfold eta_of in Hout.
  simpl in Hout.
  eexists _, _, _, reports, _. split; [by rewrite Hout|].
  split; [apply Qmult_0_l|]. split; [done|].
  by rewrite Hslept, length_replicate.
Qed.

Lemma forallb_false_length {A} (f : A -> bool) l :
  forallb f l = false -> 1 <= length l.
Proof. destruct l; [done | simpl; lia]. Qed.

Section waiting.
Context (env : renv) (sp start : Q).
Hypothesis Hsleep : Qle_bool 0 sp = true.
Hypothesis Hopen : forall t, forallb is_terminal (view env t) = false.

Lemma periodic_loop_spins fuel : forall dl st,
  all dl = false ->
  exists st',
    periodic_loop fuel sp start dl env st = Spin st'
    /\ length (out st') = length (out st) + fuel
    /\ length (slept st') = length (slept st) + fuel.
Proof.
  induction fuel as [|fuel IH]; intros dl st Hall; simpl; rewrite Hall.
  - exists st. split; [done|]. lia.
  - unfold mbind, reporter_mbind.
    rewrite print_report_ok by (by apply all_false_length).
    unfold time_sleep, read_shared, advance. rewrite Hsleep. simpl.
    match goal with
    | |- context [periodic_loop fuel sp start ?dl' env ?st'] =>
        destruct (IH dl' st') as (st'' & -> & Hout & Hslept)
    end.
    + rewrite all_map_terminal. apply Hopen.
    + exists st''. split; [done|]. simpl in *.
      rewrite length_app in Hout, Hslept. simpl in *. lia.
Qed.

Lemma on_change_loop_spins fuel : forall dl dlp st,
  all dl = false ->
  exists st',
    on_change_loop fuel sp start dl dlp env st = Spin st'
    /\ length (slept st') = length (slept st) + fuel.
Proof.
  induction fuel as [|fuel IH]; intros dl dlp st Hall; simpl; rewrite Hall.
  - exists st. split; [done|]. lia.
  - unfold mbind, reporter_mbind. destruct (changed dl dlp).
    + rewrite print_report_ok by (by apply all_false_length).
      unfold mret, reporter_mret, time_sleep, read_shared, advance.
      rewrite Hsleep. simpl.
      match goal with
      | |- context [on_change_loop fuel sp start ?dl' ?dlp' env ?st'] =>
          destruct (IH dl' dlp' st') as (st'' & -> & Hslept)
      end.
      * rewrite all_map_terminal. apply Hopen.
      * exists st''. split; [done|]. simpl in *.
        rewrite length_app in Hslept. simpl in *. lia.
    + unfold mret, reporter_mret, time_sleep, read_shared, advance.
      rewrite Hsleep. simpl.
      match goal with
      | |- context [on_change_loop fuel sp start ?dl' ?dlp' env ?st'] =>
          destruct (IH dl' dlp' st') as (st'' & -> & Hslept)
      end.
      * rewrite all_map_terminal. apply Hopen.
      * exists st''. split; [done|]. simpl in *.
        rewrite length_app in Hslept. simpl in *. lia.
Qed.
End waiting.

(** X14.  A reporter has no exit but the all-terminal list: while every
    view of the shared list has a slot that is not terminal (as it stays
    after a strict-mode failure, which leaves [R]), neither reporter ends
    or fails, however long it runs; after [fuel] rounds the periodic
    reporter has printed [fuel] reports and both have slept [fuel]
    times. *)
Theorem reporters_wait_for_terminal (env : renv) (rate : Q) (fuel : nat) :
  (0 < rate)%Q ->
  (forall t, forallb is_terminal (view env t) = false) ->
  (exists st,
     _periodic_reporting_process fuel rate env rstate0 = Spin st
     /\ length (out st) = fuel /\ length (slept st) = fuel)
  /\ (exists st,
        _on_change_reporting_process fuel rate env rstate0 = Spin st
        /\ length (slept st) = fuel).
Proof.
  intros [Hrate Hsleep]%sleep_period_ok Hopen.
  assert (Hlen : 1 <= length (view env 0))
    by (by eapply forallb_false_length).
  unfold _periodic_reporting_process, _on_change_reporting_process, mbind,
    reporter_mbind, py_truediv.
  rewrite Hrate.
  unfold mret, reporter_mret, len_shared, time_time, advance. simpl.
  split.
  - match goal with
    | |- context [periodic_loop fuel ?sp ?t0 ?dl env ?st0] =>
        destruct (periodic_loop_spins env sp t0 Hsleep Hopen fuel dl st0)
          as (st' & -> & Hout & Hslept)
    end; [by apply all_replicate_false|].
    by exists st'.
  - rewrite print_report_ok by (by rewrite length_replicate). simpl.
    match goal with
    | |- context [on_change_loop fuel ?sp ?t0 ?dl ?dlp env ?st0] =>
        destruct (on_change_loop_spins env sp t0 Hsleep Hopen fuel dl dlp st0)
          as (st' & -> & Hslept)
    end; [by apply all_replicate_false|].
    by exists st'.
Qed.

Lemma changed_all_false dl dlp :
  Forall (fun b => b = false) dl -> Forall (fun b => b = false) dlp ->
  changed dl dlp = false.
Proof.
  intros Hdl. unfold changed, all. revert dlp.
  induction Hdl as [|b dl -> _ IH]; intros dlp Hdlp; [done|].
  destruct Hdlp as [|b' dlp -> Hdlp]; [done|]. simpl.
  specialize (IH dlp Hdlp). by destruct (forallb _ _).
Qed.

Lemma all_false_nonempty dl :
  1 <= length dl -> Forall (fun b => b = false) dl -> all dl = false.
Proof.
  destruct dl as [|b l]; simpl; [lia|].
  intros _ H. apply Forall_cons in H as [-> _]. done.
Qed.

Section quiet.
Context (env : renv) (sp start : Q).
Hypothesis Hsleep : Qle_bool 0 sp = true.
Hypothesis Hlen : forall t, 1 <= length (view env t).
Hypothesis Hnone : forall t s, s ∈ view env t -> is_terminal s = false.

Lemma view_done_list t :
  Forall (fun b => b = false) (map is_terminal (view env t)).
Proof.
  change (map ?g ?l) with (g <$> l). apply Forall_fmap, Forall_forall.
  intros s Hs. by apply (Hnone t).
Qed.

Lemma on_change_loop_quiet fuel : forall dl dlp st,
  1 <= length dl ->
  Forall (fun b => b = false) dl -> Forall (fun b => b = false) dlp ->
  exists st',
    on_change_loop fuel sp start dl dlp env st = Spin st'
    /\ out st' = out st
    /\ length (slept st') = length (slept st) + fuel.
Proof.
  induction fuel as [|fuel IH]; intros dl dlp st Hn Hdl Hdlp; simpl;
    rewrite (all_false_nonempty dl Hn Hdl).
  - exists st. split; [done|]. split; [done|]. lia.
  - unfold mbind, reporter_mbind. rewrite changed_all_false by done.
    unfold mret, reporter_mret, time_sleep, read_shared, advance.
    rewrite Hsleep. simpl.
    match goal with
    | |- context [on_change_loop fuel sp start ?dl' ?dlp' env ?st'] =>
        destruct (IH dl' dlp' st') as (st'' & -> & Hout & Hslept)
    end.
    + change (map ?g ?l) with (g <$> l). rewrite length_fmap. apply Hlen.
    + apply view_done_list.
    + done.
    + exists st''. split; [done|]. split; [done|]. simpl in *.
      rewrite length_app in Hslept. simpl in *. lia.
Qed.
End quiet.

(** X15.  The on-change reporter reports changes of the terminal state
    only: while no slot of a non-empty shared list is terminal, however
    the slots move between [Q] and [R], it prints its first report and
    nothing more, sleeping once a round. *)
Theorem on_change_silent_until_terminal (env : renv) (rate : Q)
    (fuel : nat) :
  (0 < rate)%Q ->
  (forall t, 1 <= length (view env t)) ->
  (forall t s, s ∈ view env t -> is_terminal s = false) ->
  exists st first,
    _on_change_reporting_process fuel rate env rstate0 = Spin st
    /\ out st = [first]
    /\ is_report first = true
    /\ length (slept st) = fuel.
Proof.
  intros [Hrate Hsleep]%sleep_period_ok Hlen Hnone.
  unfold _on_change_reporting_process, mbind, reporter_mbind, py_truediv.
  rewrite Hrate.
  unfold mret, reporter_mret, len_shared, time_time, advance. simpl.
  rewrite print_report_ok by (rewrite length_replicate; apply Hlen). simpl.
  match goal with
  | |- context [on_change_loop fuel ?sp ?t0 ?dl ?dlp env ?st0] =>
      destruct (on_change_loop_quiet env sp t0 Hsleep Hlen Hnone fuel dl dlp
                  st0) as (st' & -> & Hout & Hslept)
  end.
  - rewrite length_replicate. apply Hlen.
  - apply Forall_replicate. done.
  - apply Forall_replicate. done.
  - eexists st', _. split; [done|]. split; [by rewrite Hout|]. done.
Qed.

Lemma sleep_period_negative rate :
  (rate < 0)%Q ->
  Qeq_bool rate 0 = false /\ Qle_bool 0 (1 / rate) = false.
Proof.
  destruct rate as [[|p|p] q]; unfold Qlt; simpl; intros H; try lia.
  done.
Qed.

(** X16.  With a negative report rate and at least one job, both
    reporters print their first report and then stop with [ValueError] at
    their first sleep, whose length [1 / report_rate] is negative; they
    have not slept. *)
Theorem reporters_fail_on_negative_rate (env : renv) (rate : Q)
    (fuel : nat) :
  (rate < 0)%Q ->
  1 <= length (view env 0) ->
  1 <= fuel ->
  (exists st first,
     _periodic_reporting_process fuel rate env rstate0
     = Crash (mk_exc ValueError "sleep length must be non-negative") st
     /\ out st = [first] /\ is_report first = true /\ slept st = [])
  /\ (exists st first,
        _on_change_reporting_process fuel rate env rstate0
        = Crash (mk_exc ValueError "sleep length must be non-negative") st
        /\ out st = [first] /\ is_report first = true /\ slept st = []).
Proof.
  intros [Hrate Hsleep]%sleep_period_negative Hlen Hfuel.
  destruct fuel as [|fuel]; [lia|].
  unfold _periodic_reporting_process, _on_change_reporting_process, mbind,
    reporter_mbind, py_truediv.
  rewrite Hrate.
  unfold mret, reporter_mret, len_shared, time_time, advance. simpl.
  rewrite (all_replicate_false _ Hlen).
  unfold mbind, reporter_mbind.
  rewrite !print_report_ok by (by rewrite length_replicate).
  unfold time_sleep. rewrite Hsleep. simpl. split.
  - by eexists _, _.
  - rewrite changed_all_false by (by apply Forall_replicate).
    unfold mbind, reporter_mbind, mret, reporter_mret.
    by eexists _, _.
Qed.



(** ** The further properties at concrete inputs *)

(** X1 at job 3 of a list of two slots. *)
Lemma wrapper_index_out_of_range_witness :
  run (fwf_of true _reporting_pool_test_func_wof 3 [PyInt 2]) [SymQ; SymQ]
  = (Raise (mk_exc IndexError "list assignment index out of range"),
     [SymQ; SymQ], [EvIndexError 3])
  /\ forall a,
       EvCall a ∉ run_events
                    (fwf_of true _reporting_pool_test_func_wof 3 [PyInt 2])
                    [SymQ; SymQ].
Proof.
  apply (wrapper_index_out_of_range true _reporting_pool_test_func_wof 3
           [PyInt 2] [SymQ; SymQ]).
  simpl. lia.
Defined.

(** X2 at job 0 and slot 1. *)
Lemma wrapper_keeps_other_slots_witness :
  (run (fwf_of false _reporting_pool_test_func_wf 0 [PyInt 0])
     [SymQ; SymR]).1.2 !! 1 = [SymQ; SymR] !! 1
  /\ length (run (fwf_of false _reporting_pool_test_func_wf 0 [PyInt 0])
               [SymQ; SymR]).1.2 = length [SymQ; SymR].
Proof.
  apply (wrapper_keeps_other_slots false _reporting_pool_test_func_wf 0 1
           [PyInt 0] [SymQ; SymR]).
  lia.
Defined.

Lemma test_func_wof_returns n args :
  args ∈ range_args n ->
  exists v, _reporting_pool_test_func_wof args = Return v.
Proof.
  unfold range_args. intros Hin.
  apply list_elem_of_In, in_map_iff in Hin as (v & <- & _). by eexists.
Qed.

(** X3 at the first example of the source, with three jobs. *)
Lemma start_without_failure_witness :
  let self :=
    __init__ _reporting_pool_test_func_wof (range_args 3) (Some 8%Z) 60 true
      false in
  result (start self [2; 0; 2; 1])
  = Returned ((fun args => match func self args with
                           | Return v => v
                           | Raise _ => PyNone
                           end) <$> p_args self)
  /\ failed_i_jobs (start self [2; 0; 2; 1])
     = (if track_failures self then Some [] else None)
  /\ final_list (start self [2; 0; 2; 1])
     = replicate (length (p_args self)) SymS
  /\ main_log (start self [2; 0; 2; 1]) = start_head self ++ [MJoin].
Proof.
  intros self. apply (start_without_failure self [2; 0; 2; 1]).
  - reflexivity.
  - exact (test_func_wof_returns 3).
Defined.

(** X4 at seven jobs in strict mode, of which jobs 0 and 6 raise. *)
Lemma strict_failure_propagates_witness :
  let self :=
    __init__ _reporting_pool_test_func_wf (range_args 7) None 60 false
      false in
  (exists i args e,
     p_args self !! i = Some args /\ func self args = Raise e
     /\ result (start self [6; 6; 0]) = Raised e)
  /\ failed_i_jobs (start self [6; 6; 0]) = None
  /\ main_log (start self [6; 6; 0]) = start_head self.
Proof.
  intros self. apply (strict_failure_propagates self [6; 6; 0]).
  - reflexivity.
  - reflexivity.
  - intros args e _ H. exact (test_func_wf_raises_Exception args e H).
  - exists [PyInt 0], (mk_exc ValueError ""). split; [|reflexivity].
    simpl. left.
Defined.

(** X5 at seven jobs in isolating mode. *)
Lemma returned_list_all_terminal_witness :
  let self :=
    __init__ _reporting_pool_test_func_wf (range_args 7) None 20 false
      true in
  result (start self [6; 1])
  = Returned [PyNone; PyInt 1; PyInt 4; PyInt 9; PyInt 16; PyInt 25; PyNone]
  /\ final_list (start self [6; 1])
     = (fun args => match func self args with
                    | Return _ => SymS
                    | Raise _ => SymF
                    end) <$> p_args self
  /\ all (map is_terminal (final_list (start self [6; 1]))) = true.
Proof.
  intros self. split; [reflexivity|].
  apply (returned_list_all_terminal self [6; 1]
           [PyNone; PyInt 1; PyInt 4; PyInt 9; PyInt 16; PyInt 25; PyNone]).
  reflexivity.
Defined.

(** X6 at job 6 of seven jobs in isolating mode. *)
Lemma returned_each_job_called_once_witness :
  let self :=
    __init__ _reporting_pool_test_func_wf (range_args 7) None 20 false
      true in
  job_events 6 (log (end_pool self [6; 1; 6]))
  = [EvWrite 6 SymR; EvCall [PyInt 6]; EvWrite 6 SymF].
Proof.
  intros self.
  apply (returned_each_job_called_once self [6; 1; 6]
           [PyNone; PyInt 1; PyInt 4; PyInt 9; PyInt 16; PyInt 25; PyNone]
           6 [PyInt 6]); reflexivity.
Defined.


(** X9 at a done-list with one job done out of two. *)
Lemma report_fraction_bounds_witness :
  exists fraction time_passed est lst st',
    _print_report [true; false] 1 two_jobs_env rstate0 = Done tt st'
    /\ out st' = out rstate0 ++ [Report fraction time_passed est lst]
    /\ tick st' = tick rstate0 + 2
    /\ slept st' = slept rstate0
    /\ (0 <= fraction <= 1)%Q
    /\ ((fraction == 1)%Q <-> all [true; false] = true)
    /\ ((fraction == 0)%Q <-> est = NaN).
Proof.
  apply (report_fraction_bounds [true; false] 1 two_jobs_env rstate0).
  simpl. lia.
Defined.

(** X10 at the empty shared list. *)
Lemma on_change_fails_without_jobs_witness :
  _on_change_reporting_process 3 60 no_job_env rstate0
  = Crash (mk_exc ZeroDivisionError "division by zero")
      {| tick := 4; slept := []; out := [] |}
  /\ forall start_time st,
       _print_report [] start_time no_job_env st
       = Crash (mk_exc ZeroDivisionError "division by zero") (advance st).
Proof.
  apply (on_change_fails_without_jobs no_job_env 60 3).
  - intros H. discriminate H.
  - reflexivity.
Defined.

(** X11 at the rate 0. *)
Lemma reporters_fail_on_zero_rate_witness :
  _periodic_reporting_process 3 0 two_jobs_env rstate0
  = Crash (mk_exc ZeroDivisionError "division by zero") rstate0
  /\ _on_change_reporting_process 3 0 two_jobs_env rstate0
     = Crash (mk_exc ZeroDivisionError "division by zero") rstate0.
Proof.
  apply (reporters_fail_on_zero_rate two_jobs_env 0 3 rstate0).
  reflexivity.
Defined.

(** X12 at the two jobs that end one after the other. *)
Lemma periodic_one_sleep_per_report_witness :
  let st :=
    {| tick := 15;
       slept := [1 # 2; 1 # 2; 1 # 2]%Q;
       out := [Report (0 # 2) 1 NaN "QR";
               Report (0 # 2) 5 NaN "RS";
               Report (1 # 2) 9 (Seconds 9) "SF";
               Finished 13] |} in
  exists reports elapsed,
    out st = reports ++ [Finished elapsed]
    /\ Forall (fun l => is_report l = true /\ below_100 l) reports
    /\ slept st = replicate (length reports) (1 / 2)%Q.
Proof.
  intros st. apply (periodic_one_sleep_per_report two_jobs_env 2 9 st).
  vm_compute. reflexivity.
Defined.

(** X13 at the two jobs that end one after the other. *)
Lemma on_change_first_report_and_rate_witness :
  let st :=
    {| tick := 12;
       slept := [1 # 2; 1 # 2]%Q;
       out := [Report (0 # 2) 1 NaN "QR";
               Report (1 # 2) 5 (Seconds 5) "RS";
               Finished 9] |} in
  exists fraction time_passed lst reports elapsed,
    out st
    = Report fraction time_passed NaN lst :: reports ++ [Finished elapsed]
    /\ (fraction == 0)%Q
    /\ Forall (fun l => is_report l = true /\ below_100 l) reports
    /\ length reports <= length (slept st).
Proof.
  intros st. apply (on_change_first_report_and_rate two_jobs_env 2 9 st).
  vm_compute. reflexivity.
Defined.

(** X14 at a job left at [R]. *)
Lemma reporters_wait_for_terminal_witness :
  (exists st,
     _periodic_reporting_process 7 20 stuck_env rstate0 = Spin st
     /\ length (out st) = 7 /\ length (slept st) = 7)
  /\ (exists st,
        _on_change_reporting_process 7 20 stuck_env rstate0 = Spin st
        /\ length (slept st) = 7).
Proof.
  apply (reporters_wait_for_terminal stuck_env 20 7).
  - reflexivity.
  - intros t. reflexivity.
Defined.

Lemma running_env_length t : 1 <= length (view running_env t).
Proof. simpl. destruct (Nat.even t); simpl; lia. Qed.

Lemma running_env_open t s :
  s ∈ view running_env t -> is_terminal s = false.
Proof.
  simpl. destruct (Nat.even t); intros Hs;
    repeat (apply elem_of_cons in Hs as [->|Hs]; [done|]);
    by apply elem_of_nil in Hs.
Qed.

(** X15 at two jobs that only move between [Q] and [R]. *)
Lemma on_change_silent_until_terminal_witness :
  exists st first,
    _on_change_reporting_process 6 20 running_env rstate0 = Spin st
    /\ out st = [first]
    /\ is_report first = true
    /\ length (slept st) = 6.
Proof.
  apply (on_change_silent_until_terminal running_env 20 6).
  - reflexivity.
  - exact running_env_length.
  - exact running_env_open.
Defined.

(** X16 at the rate -1. *)
Lemma reporters_fail_on_negative_rate_witness :
  (exists st first,
     _periodic_reporting_process 4 (-1) two_jobs_env rstate0
     = Crash (mk_exc ValueError "sleep length must be non-negative") st
     /\ out st = [first] /\ is_report first = true /\ slept st = [])
  /\ (exists st first,
        _on_change_reporting_process 4 (-1) two_jobs_env rstate0
        = Crash (mk_exc ValueError "sleep length must be non-negative") st
        /\ out st = [first] /\ is_report first = true /\ slept st = []).
Proof.
  apply (reporters_fail_on_negative_rate two_jobs_env (-1) 4).
  - reflexivity.
  - simpl. lia.
  - lia.
Defined.
